(** * PIR motion-sensor broadcast: server and client decoder

    A shallow embedding of [pir-server.py] (the broadcast server) and of
    the [PIRClient] class of [video-client.py] (discovery, frame decoder,
    debounced motion query), with the properties of the protocol proved
    over it.

    Conventions of the embedding.
    - Python [int] is [Z]; Python [float] (clock readings, durations) is
      idealised as an exact rational [Q]; [str] is [string], whose
      characters stand for the code points U+0000..U+00FF (the server
      serialises with [json.dumps], whose output is ASCII).
    - A statement that may raise is a computation in the monad [M]: it
      maps a state to an outcome (a value or a raised exception) and the
      state reached, so mutations made before a [raise] persist, as in
      Python.  [try_except] is Python's [try: ... except ...:].
    - What the code obtains from outside ([GPIO.input], [time.time],
      [datetime.now], the fate of a [send], [recv], [connect_ex]) is an
      explicit argument of the function that consumes it.
    - [json.loads] and [json.dumps] belong to Python's library; functions
      that call them take them as arguments.  A call of [json.loads]
      returns a value or raises [JSONDecodeError], [RecursionError] or
      [ValueError].  [Json.loads] further down is a reader for the JSON
      grammar used to run the decoder on concrete frames.
    - A function that starts a thread does not run it: [start_server]
      hands each connection to a thread that runs [handle_client], and
      [connect] starts the thread that runs [_receive_data].  A run of
      several threads is the sequence of their steps, each taken as a
      whole: a turn of the accept loop, the registration or the welcome
      of a handler, a tick of the poll loop.
    - Console output ([print]) of the server is not modelled. *)

From Stdlib Require Import ZArith QArith String Ascii List Bool Lia DecimalString.
From Stdlib Require Import Permutation.
Import ListNotations.

Set Implicit Arguments.
Set Warnings "-register-all".

(** ** Python values and exceptions *)

Module Py.

(** The values [json.loads] can return. A [dict] is an association list in
    which every key occurs once. *)
Inductive value : Type :=
| VNone
| VBool (b : bool)
| VInt (n : Z)
| VFloat (q : Q)
| VStr (s : string)
| VList (l : list value)
| VDict (d : list (string * value)).

Inductive exn : Type :=
| JSONDecodeError
| AttributeError
| UnicodeDecodeError
| socket_timeout
| OSError
| ValueError
| RecursionError
| RuntimeError.

(** What [json.loads] raises: [JSONDecodeError] on text that is not JSON,
    [RecursionError] on text nested beyond the interpreter's limit,
    [ValueError] on an integer literal beyond the digit limit. *)
Inductive load_error : Type :=
| NotJSON
| TooDeep
| TooLong.

Definition raised_by_loads (e : load_error) : exn :=
  match e with
  | NotJSON => JSONDecodeError
  | TooDeep => RecursionError
  | TooLong => ValueError
  end.

(** What a call of [json.loads] does. *)
Inductive loaded : Type :=
| Loaded (v : value)
| NotLoaded (e : load_error).

Inductive outcome (A : Type) : Type :=
| Ret (a : A)
| Raise (e : exn).
Arguments Raise {A} e.

(** Computations over a state of type [S]. *)
Definition M (S A : Type) : Type := S -> outcome A * S.

Definition ret {S A} (a : A) : M S A := fun s => (Ret a, s).

Definition raise {S A} (e : exn) : M S A := fun s => (Raise e, s).

Definition bind {S A B} (c : M S A) (k : A -> M S B) : M S B :=
  fun s => match c s with
           | (Ret a, s') => k a s'
           | (Raise e, s') => (Raise e, s')
           end.

Definition get {S} : M S S := fun s => (Ret s, s).

Definition modify {S} (f : S -> S) : M S unit := fun s => (Ret tt, f s).

(** [try: c except: h] with a handler for every exception. *)
Definition try_except {S A} (c : M S A) (h : exn -> M S A) : M S A :=
  fun s => match c s with
           | (Ret a, s') => (Ret a, s')
           | (Raise e, s') => h e s'
           end.

(** [x == k] for an [int] literal [k]: numbers compare by value, [True]
    and [False] are the integers 1 and 0, anything else is unequal. *)
Definition eq_int (x : value) (k : Z) : bool :=
  match x with
  | VInt n => Z.eqb n k
  | VBool b => Z.eqb (Z.b2z b) k
  | VFloat q => Qeq_bool q (inject_Z k)
  | _ => false
  end.

(** [x == s] for a [str] literal [s]. *)
Definition eq_str (x : value) (s : string) : bool :=
  match x with
  | VStr t => String.eqb t s
  | _ => false
  end.

Fixpoint lookup (k : string) (d : list (string * value)) : option value :=
  match d with
  | [] => None
  | (k', v) :: d' => if String.eqb k k' then Some v else lookup k d'
  end.

(** [message.get(key, default)]: only a [dict] has the method. *)
Definition dict_get {S} (message : value) (key : string) (default : value)
  : M S value :=
  match message with
  | VDict d => ret (match lookup key d with Some v => v | None => default end)
  | _ => raise AttributeError
  end.

End Py.

Import Py.

Declare Scope py_scope.
Delimit Scope py_scope with py.
Notation "x <- c ;; k" := (bind c (fun x => k))
  (at level 61, c at next level, right associativity) : py_scope.
Notation "c ;; k" := (bind c (fun _ => k))
  (at level 61, right associativity) : py_scope.
Open Scope py_scope.

(** ** The broadcast server, [pir-server.py] *)

Module Server.

Definition PIR_PIN : Z := 24.
Definition PORT : Z := 5555.

Definition sock : Type := nat.
Definition address : Type := (string * Z)%type.
Definition client : Type := (sock * address)%type.

(** Effects of the server that its other thread or the network can see:
    mutations of the shared list [clients], calls of [json.dumps], and
    socket operations. *)
Inductive event : Type :=
| Append (c : client)
| Remove (c : client)
| Dumps (data : value)
| Sent (s : sock) (bytes : string)
| SendFailed (s : sock) (bytes : string)
| Closed (s : sock).

(** The module's globals, the two locals that [monitor_sensor] carries
    around its loop, and the events so far, oldest first. *)
Record state : Type := mk_state {
  clients : list client;
  pir_state : Z;
  motion_count : Z;
  last_state_change : Q;
  previous_state : Z;
  send_counter : Z;
  trace : list event
}.

Definition initial : state :=
  {| clients := []; pir_state := 0; motion_count := 0;
     last_state_change := 0; previous_state := 0; send_counter := 0;
     trace := [] |}.

Definition set_clients (l : list client) (s : state) : state :=
  mk_state l (pir_state s) (motion_count s) (last_state_change s)
           (previous_state s) (send_counter s) (trace s).
Definition set_pir_state (v : Z) (s : state) : state :=
  mk_state (clients s) v (motion_count s) (last_state_change s)
           (previous_state s) (send_counter s) (trace s).
Definition set_motion_count (v : Z) (s : state) : state :=
  mk_state (clients s) (pir_state s) v (last_state_change s)
           (previous_state s) (send_counter s) (trace s).
Definition set_last_state_change (v : Q) (s : state) : state :=
  mk_state (clients s) (pir_state s) (motion_count s) v
           (previous_state s) (send_counter s) (trace s).
Definition set_previous_state (v : Z) (s : state) : state :=
  mk_state (clients s) (pir_state s) (motion_count s) (last_state_change s)
           v (send_counter s) (trace s).
Definition set_send_counter (v : Z) (s : state) : state :=
  mk_state (clients s) (pir_state s) (motion_count s) (last_state_change s)
           (previous_state s) v (trace s).
Definition emit (e : event) (s : state) : state :=
  mk_state (clients s) (pir_state s) (motion_count s) (last_state_change s)
           (previous_state s) (send_counter s) (trace s ++ [e]).

Definition client_eqb (a b : client) : bool :=
  Nat.eqb (fst a) (fst b)
  && String.eqb (fst (snd a)) (fst (snd b))
  && Z.eqb (snd (snd a)) (snd (snd b)).

(** [client in clients] *)
Definition client_in (c : client) (l : list client) : bool :=
  existsb (client_eqb c) l.

(** [clients.remove(client)]: drops the first equal element. *)
Fixpoint list_remove (c : client) (l : list client) : list client :=
  match l with
  | [] => []
  | x :: l' => if client_eqb x c then l' else x :: list_remove c l'
  end.

(** [client_socket.send(bytes)]; [down s] tells whether the write on
    socket [s] fails. *)
Definition send (down : sock -> bool) (s : sock) (bytes : string)
  : M state unit :=
  if down s
  then (modify (emit (SendFailed s bytes)) ;; raise OSError)
  else modify (emit (Sent s bytes)).

Definition close (s : sock) : M state unit := modify (emit (Closed s)).

(** The first loop of [broadcast_to_clients]; returns
    [disconnected_clients]. *)
Fixpoint send_all (down : sock -> bool) (message : string)
         (l : list client) (disconnected_clients : list client)
  : M state (list client) :=
  match l with
  | [] => ret disconnected_clients
  | (client_socket, client_address) :: l' =>
      d <- try_except
             (send down client_socket message ;; ret disconnected_clients)
             (fun _ =>
                ret (disconnected_clients ++ [(client_socket, client_address)])) ;;
      send_all down message l' d
  end.

(** The second loop of [broadcast_to_clients]. *)
Fixpoint remove_all (disconnected_clients : list client) : M state unit :=
  match disconnected_clients with
  | [] => ret tt
  | c :: rest =>
      s <- get ;;
      (if client_in c (clients s)
       then modify (fun s => emit (Remove c)
                               (set_clients (list_remove c (clients s)) s)) ;;
            close (fst c)
       else ret tt) ;;
      remove_all rest
  end.

Definition broadcast_to_clients (down : sock -> bool) (message : string)
  : M state unit :=
  s <- get ;;
  d <- send_all down message (clients s) [] ;;
  remove_all d.

Definition welcome_msg (stamp : string) (pir : Z) : value :=
  VDict [("type", VStr "welcome");
         ("message", VStr "Connected to PIR server");
         ("timestamp", VStr stamp);
         ("pir_state", VInt pir)]%string.

Definition newline : string := String (ascii_of_nat 10) EmptyString.

(** [json.dumps(data)] with the call recorded. *)
Definition json_dumps (dumps : value -> string) (data : value)
  : M state string :=
  modify (emit (Dumps data)) ;; ret (dumps data).

(** [stamp] is [datetime.now().isoformat()]. *)
Definition handle_client (dumps : value -> string) (down : sock -> bool)
           (stamp : string) (client_socket : sock) (client_address : address)
  : M state unit :=
  modify (fun s => emit (Append (client_socket, client_address))
                     (set_clients (clients s ++ [(client_socket, client_address)]) s)) ;;
  s <- get ;;
  try_except
    (text <- json_dumps dumps (welcome_msg stamp (pir_state s)) ;;
     send down client_socket (text ++ newline))
    (fun _ => ret tt).

(** What one turn of the loop of [monitor_sensor] takes from outside:
    the sensor reading, the two readings of [time.time()], the
    timestamp and the sockets whose write fails. *)
Record tick_input : Type := {
  reading : Z;
  time_at_change : Q;
  time_at_send : Q;
  iso_now : string;
  down : sock -> bool
}.

Definition Qlt_bool (a b : Q) : bool := negb (Qle_bool b a).

Definition state_record (i : tick_input) (current_state : Z) (s : state)
  : value :=
  VDict [("type", VStr "pir_state");
         ("timestamp", VStr (iso_now i));
         ("state", VInt current_state);
         ("motion", VBool (negb (Z.eqb current_state 0)));
         ("pin", VInt PIR_PIN);
         ("motion_count", VInt (motion_count s));
         ("time_since_change",
           if Qlt_bool 0 (last_state_change s)
           then VFloat (time_at_send i - last_state_change s)
           else VInt 0);
         ("clients_connected", VInt (Z.of_nat (length (clients s))))]%string.

(** The body of [while running:] in [monitor_sensor]. *)
Definition monitor_tick (dumps : value -> string) (i : tick_input)
  : M state unit :=
  let current_state := reading i in
  s <- get ;;
  (if negb (Z.eqb current_state (previous_state s))
   then (if Z.eqb current_state 1
         then modify (fun s => set_motion_count (motion_count s + 1) s)
         else ret tt) ;;
        modify (set_previous_state current_state) ;;
        modify (set_last_state_change (time_at_change i))
   else ret tt) ;;
  modify (set_pir_state current_state) ;;
  s <- get ;;
  let data := state_record i current_state s in
  match clients s with
  | [] => ret tt
  | _ :: _ =>
      text <- json_dumps dumps data ;;
      broadcast_to_clients (down i) (text ++ newline) ;;
      modify (fun s => set_send_counter (send_counter s + 1) s)
  end.

(** [monitor_sensor] over the readings of a run. *)
Fixpoint monitor_sensor (dumps : value -> string) (inputs : list tick_input)
  : M state unit :=
  match inputs with
  | [] => ret tt
  | i :: rest => monitor_tick dumps i ;; monitor_sensor dumps rest
  end.

(** *** The accept loop of [start_server] and the shutdown of [main] *)

(** One turn of [while running:] in [start_server]. [accepted] is what
    [server_socket.settimeout(1.0)] and [server_socket.accept()] give or
    raise, [started] what the creation of the thread and
    [client_thread.start()] do. The turn hands the connection to a
    thread of its own, which runs [handle_client], and goes round
    without waiting for it; it touches nothing of the server's state
    itself. Its result is the connection whose thread it started, if
    there is one. A timeout of [accept] goes round again; any other
    exception is printed. *)
Definition accept_step (accepted : outcome client) (started : outcome unit)
  : M state (option client) :=
  try_except
    (try_except
       (c <- (fun s => (accepted, s)) ;;
        (fun s => (started, s)) ;;
        ret (Some c))
       (fun e => match e with
                 | socket_timeout => ret None
                 | _ => raise e
                 end))
    (fun _ => ret None).

(** The loop over what [accept] and [start] do turn by turn; its result
    is the connections whose threads it started, oldest first. *)
Fixpoint accept_loop (inputs : list (outcome client * outcome unit))
  : M state (list client) :=
  match inputs with
  | [] => ret []
  | (accepted, started) :: rest =>
      thread <- accept_step accepted started ;;
      threads <- accept_loop rest ;;
      ret (match thread with
           | Some c => c :: threads
           | None => threads
           end)
  end.

(** [handle_client] in the two parts between which the other threads
    can run: [clients.append(...)], and the welcome with its [try]. *)
Definition register (c : client) : M state unit :=
  modify (fun s => emit (Append c) (set_clients (clients s ++ [c]) s)).

Definition welcome (dumps : value -> string) (down : sock -> bool)
           (stamp : string) (c : client) : M state unit :=
  s <- get ;;
  try_except
    (text <- json_dumps dumps (welcome_msg stamp (pir_state s)) ;;
     send down (fst c) (text ++ newline))
    (fun _ => ret tt).




End Server.

(** ** The client, class [PIRClient] of [video-client.py] *)

Module Client.

Record settings : Type := {
  motion_debounce_ms : Z;
  port : Z;
  buffer_size : Z
}.

Definition SETTINGS : settings :=
  {| motion_debounce_ms := 200; port := 5555; buffer_size := 1024 |}.

(** Socket operations of the discovery scan and the lines written to the
    log. *)
Inductive event : Type :=
| Probe (ip : string) (port : Z) (timeout : Q)
| ProbeClosed (ip : string)
| LogSearching
| LogScanning (network_prefix : string)
| LogNoNetwork
| LogFound (ip : string)
| LogNotFound
| LogMotion (count : value)
| LogWelcome (message : value)
| LogClosedByServer
| LogReceiveError (e : exn).

(** The attributes of a [PIRClient] (the socket handle apart) and the
    events so far, oldest first. *)
Record PIRClient : Type := mk_client {
  connected : bool;
  motion_detected : bool;
  last_motion_time : Q;
  running : bool;
  trace : list event
}.

(** [__init__], then a successful [connect]. *)
Definition fresh : PIRClient :=
  {| connected := true; motion_detected := false; last_motion_time := 0;
     running := true; trace := [] |}.

Definition set_connected (b : bool) (c : PIRClient) : PIRClient :=
  mk_client b (motion_detected c) (last_motion_time c) (running c) (trace c).
Definition set_motion_detected (b : bool) (c : PIRClient) : PIRClient :=
  mk_client (connected c) b (last_motion_time c) (running c) (trace c).
Definition set_last_motion_time (t : Q) (c : PIRClient) : PIRClient :=
  mk_client (connected c) (motion_detected c) t (running c) (trace c).
Definition emit (e : event) (c : PIRClient) : PIRClient :=
  mk_client (connected c) (motion_detected c) (last_motion_time c)
            (running c) (trace c ++ [e]).

(** *** [find_raspberry_pi] *)

(** [s.split(sep)] *)
Fixpoint split (sep : ascii) (s : string) : list string :=
  match s with
  | EmptyString => [EmptyString]
  | String c s' =>
      if Ascii.eqb c sep then EmptyString :: split sep s'
      else match split sep s' with
           | h :: t => String c h :: t
           | [] => [String c EmptyString]
           end
  end.

(** [str(i)] *)
Definition str (i : nat) : string :=
  NilEmpty.string_of_uint (Nat.to_uint i).

(** ['.'.join(local_ip.split('.')[:-1]) + '.'] *)
Definition network_prefix_of (local_ip : string) : string :=
  (String.concat "." (removelast (split "." local_ip)) ++ ".")%string.

(** Lifts what the environment answers into a computation. *)
Definition answer {S A} (r : outcome A) : M S A := fun s => (r, s).

(** The [for i in range(1, 255)] loop over the hosts still to try. The
    [finally] clause closes the probe socket on every path. The creation
    of the probe socket and its [settimeout], in front of the [try], are
    taken to return; [scan_sockets] further down is the scan without
    that. *)
Fixpoint scan (cfg : settings) (connect_ex : string -> Z -> outcome Z)
         (network_prefix : string) (hosts : list nat)
  : M PIRClient (option string) :=
  match hosts with
  | [] => modify (emit LogNotFound) ;; ret None
  | i :: rest =>
      let ip := (network_prefix ++ str i)%string in
      modify (emit (Probe ip (port cfg) (5 # 100))) ;;
      found <- try_except
                 (result <- answer (connect_ex ip (port cfg)) ;;
                  if Z.eqb result 0
                  then modify (emit (LogFound ip)) ;; ret true
                  else ret false)
                 (fun _ => ret false) ;;
      modify (emit (ProbeClosed ip)) ;;
      if found then ret (Some ip) else scan cfg connect_ex network_prefix rest
  end.

(** [local_ip] is what the [getsockname] of the route probe gives, or the
    exception raised on the way. *)
Definition find_raspberry_pi (cfg : settings) (local_ip : outcome string)
           (connect_ex : string -> Z -> outcome Z)
  : M PIRClient (option string) :=
  modify (emit LogSearching) ;;
  prefix <- try_except
              (ip <- answer local_ip ;;
               let network_prefix := network_prefix_of ip in
               modify (emit (LogScanning network_prefix)) ;;
               ret (Some network_prefix))
              (fun _ => modify (emit LogNoNetwork) ;; ret None) ;;
  match prefix with
  | None => ret None
  | Some network_prefix => scan cfg connect_ex network_prefix (seq 1 254)
  end.

(** *** [_receive_data] *)

(** The client object together with the two locals of [_receive_data]. *)
Record frame : Type := mk_frame {
  self : PIRClient;
  buffer : string;
  previous_state : value
}.

Definition enter (c : PIRClient) : frame :=
  {| self := c; buffer := EmptyString; previous_state := VInt 0 |}.

Definition on_self (f : PIRClient -> PIRClient) (fr : frame) : frame :=
  mk_frame (f (self fr)) (buffer fr) (previous_state fr).
Definition set_buffer (b : string) (fr : frame) : frame :=
  mk_frame (self fr) b (previous_state fr).
Definition set_previous_state (v : value) (fr : frame) : frame :=
  mk_frame (self fr) (buffer fr) v.

Definition newline : ascii := ascii_of_nat 10.

(** ['\n' in buffer] together with [buffer.split('\n', 1)]. *)
Fixpoint split_newline (s : string) : option (string * string) :=
  match s with
  | EmptyString => None
  | String c s' =>
      if Ascii.eqb c newline then Some (EmptyString, s')
      else match split_newline s' with
           | Some (line, rest) => Some (String c line, rest)
           | None => None
           end
  end.

(** [c.isspace()] for the code points below 256. *)
Definition isspace (c : ascii) : bool :=
  let n := nat_of_ascii c in
  ((9 <=? n) && (n <=? 13) || (28 <=? n) && (n <=? 32)
   || (n =? 133) || (n =? 160))%nat.

(** The truth value of [line.strip()]. *)
Fixpoint strip_nonempty (line : string) : bool :=
  match line with
  | EmptyString => false
  | String c rest => negb (isspace c) || strip_nonempty rest
  end.

Definition json_loads (loads : string -> loaded) (line : string)
  : M frame value :=
  match loads line with
  | Loaded v => ret v
  | NotLoaded e => raise (raised_by_loads e)
  end.

(** The body of the inner [try], after [json.loads]; [now] is
    [time.time()]. *)
Definition on_message (now : Q) (message : value) : M frame unit :=
  ty <- dict_get message "type" VNone ;;
  if eq_str ty "pir_state" then
    current_state <- dict_get message "state" (VInt 0) ;;
    fr <- get ;;
    (if eq_int current_state 1 && eq_int (previous_state fr) 0
     then modify (on_self (set_motion_detected true)) ;;
          modify (on_self (set_last_motion_time now)) ;;
          count <- dict_get message "motion_count" (VInt 0) ;;
          modify (on_self (emit (LogMotion count)))
     else ret tt) ;;
    modify (set_previous_state current_state)
  else
    ty <- dict_get message "type" VNone ;;
    if eq_str ty "welcome" then
      text <- dict_get message "message" VNone ;;
      modify (on_self (emit (LogWelcome text))) ;;
      seed <- dict_get message "pir_state" (VInt 0) ;;
      modify (set_previous_state seed)
    else ret tt.

(** One extracted line: [if line.strip(): try: ... except
    json.JSONDecodeError: pass]. *)
Definition on_line (loads : string -> loaded) (now : Q) (line : string)
  : M frame unit :=
  if strip_nonempty line then
    try_except
      (message <- json_loads loads line ;; on_message now message)
      (fun e => match e with
                | JSONDecodeError => ret tt
                | _ => raise e
                end)
  else ret tt.

(** [while '\n' in buffer:]. Every turn shortens [buffer], so its length
    bounds the number of turns; [drain_fuel] shows that more fuel changes
    nothing. *)
Fixpoint drain (loads : string -> loaded) (now : Q) (fuel : nat)
  : M frame unit :=
  match fuel with
  | O => ret tt
  | S fuel' =>
      fr <- get ;;
      match split_newline (buffer fr) with
      | None => ret tt
      | Some (line, rest) =>
          modify (set_buffer rest) ;;
          on_line loads now line ;;
          drain loads now fuel'
      end
  end.

(** One turn of [while self.running and self.connected:]. [received] is
    what [self.socket.recv(...).decode('utf-8')] gives or raises. The
    result tells whether the loop goes on. *)
Definition receive_step (loads : string -> loaded) (now : Q)
           (received : outcome string) : M frame bool :=
  try_except
    (data <- answer received ;;
     match data with
     | EmptyString =>
         modify (on_self (emit LogClosedByServer)) ;;
         modify (on_self (set_connected false)) ;;
         ret false
     | _ =>
         modify (fun fr => set_buffer (buffer fr ++ data) fr) ;;
         fr <- get ;;
         drain loads now (String.length (buffer fr)) ;;
         ret true
     end)
    (fun e => match e with
              | socket_timeout => ret true
              | _ => modify (on_self (emit (LogReceiveError e))) ;;
                     modify (on_self (set_connected false)) ;;
                     ret false
              end).

(** The loop of [_receive_data] over what the socket delivers, each item
    with the clock reading of its turn. *)
Fixpoint receive_loop (loads : string -> loaded)
         (inputs : list (Q * outcome string)) : M frame unit :=
  match inputs with
  | [] => ret tt
  | (now, received) :: rest =>
      fr <- get ;;
      if running (self fr) && connected (self fr) then
        go_on <- receive_step loads now received ;;
        if go_on then receive_loop loads rest else ret tt
      else ret tt
  end.

(** *** [get_motion] *)

Definition Qlt_bool (a b : Q) : bool := negb (Qle_bool b a).

(** [now] is [time.time()]. *)
Definition get_motion (cfg : settings) (now : Q) : M PIRClient bool :=
  c <- get ;;
  if motion_detected c then
    if Qlt_bool (inject_Z (motion_debounce_ms cfg) / 1000)
                (now - last_motion_time c)
    then modify (set_motion_detected false) ;; ret true
    else ret false
  else ret false.

(** *** [__init__], [connect] and [close] *)

(** [__init__] *)
Definition init : PIRClient :=
  {| connected := false; motion_detected := false; last_motion_time := 0;
     running := true; trace := [] |}.

Definition set_running (b : bool) (c : PIRClient) : PIRClient :=
  mk_client (connected c) (motion_detected c) (last_motion_time c) b (trace c).

(** The truth value of a [str] or [None]. *)
Definition truthy (ip : option string) : bool :=
  match ip with
  | Some (String _ _) => true
  | _ => false
  end.

(** The scan with the two lines in front of the [try] of each probe:
    [socket_socket ip] is what the creation of the probe socket for [ip]
    and its [settimeout(0.05)] do. What they raise is outside every
    [try] of the function and leaves loop and function. [scan] is this
    scan when the two lines return for every host. *)
Fixpoint scan_sockets (cfg : settings) (socket_socket : string -> outcome unit)
         (connect_ex : string -> Z -> outcome Z)
         (network_prefix : string) (hosts : list nat)
  : M PIRClient (option string) :=
  match hosts with
  | [] => modify (emit LogNotFound) ;; ret None
  | i :: rest =>
      let ip := (network_prefix ++ str i)%string in
      answer (socket_socket ip) ;;
      modify (emit (Probe ip (port cfg) (5 # 100))) ;;
      found <- try_except
                 (result <- answer (connect_ex ip (port cfg)) ;;
                  if Z.eqb result 0
                  then modify (emit (LogFound ip)) ;; ret true
                  else ret false)
                 (fun _ => ret false) ;;
      modify (emit (ProbeClosed ip)) ;;
      if found then ret (Some ip)
      else scan_sockets cfg socket_socket connect_ex network_prefix rest
  end.

(** [find_raspberry_pi] with that scan. *)
Definition find_raspberry_pi_sockets (cfg : settings)
           (local_ip : outcome string)
           (socket_socket : string -> outcome unit)
           (connect_ex : string -> Z -> outcome Z)
  : M PIRClient (option string) :=
  modify (emit LogSearching) ;;
  prefix <- try_except
              (ip <- answer local_ip ;;
               let network_prefix := network_prefix_of ip in
               modify (emit (LogScanning network_prefix)) ;;
               ret (Some network_prefix))
              (fun _ => modify (emit LogNoNetwork) ;; ret None) ;;
  match prefix with
  | None => ret None
  | Some network_prefix =>
      scan_sockets cfg socket_socket connect_ex network_prefix (seq 1 254)
  end.

(** [connect(ip)]. The search is called in front of the [try], so what
    it raises leaves [connect]. Inside the [try], [socket_connect a] is
    what the creation of the socket and its [connect((a, port))] do, and
    [thread_start] is what [self.receive_thread.start()] does, after
    [connected] has been set. The log lines are left out. *)
Definition connect (cfg : settings) (local_ip : outcome string)
           (socket_socket : string -> outcome unit)
           (connect_ex : string -> Z -> outcome Z)
           (socket_connect : string -> outcome unit)
           (thread_start : outcome unit) (ip : option string)
  : M PIRClient bool :=
  target <- (if truthy ip then ret ip
             else find_raspberry_pi_sockets cfg local_ip socket_socket
                                            connect_ex) ;;
  match target with
  | Some a =>
      if truthy target then
        try_except
          (answer (socket_connect a) ;;
           modify (set_connected true) ;;
           answer thread_start ;;
           ret true)
          (fun _ => ret false)
      else ret false
  | None => ret false
  end.

(** [close()] *)
Definition close : M PIRClient unit :=
  modify (set_running false) ;;
  modify (set_connected false).

(** [_receive_data] as the thread runs it: fresh locals, then the loop. *)
Definition receive_data (loads : string -> loaded)
           (inputs : list (Q * outcome string)) (c : PIRClient)
  : outcome unit * PIRClient :=
  let r := receive_loop loads inputs (enter c) in
  (fst r, self (snd r)).

End Client.

(** ** A reader for JSON text

    [Json.read] follows the grammar that [json.loads] accepts, with two
    restrictions that come from [value]: the constants [NaN], [Infinity]
    and [-Infinity] and [\u] escapes above U+00FF have no counterpart and
    are rejected.  [Json.loads] is the reader as a call of [json.loads]:
    text that [Json.read] rejects raises [JSONDecodeError].  It knows no
    limit of nesting or of digits; [Json.loads_within] is the reader
    with a limit of nesting, beyond which it raises [RecursionError]. *)

Module Json.

Definition is_ws (c : ascii) : bool :=
  let n := nat_of_ascii c in
  ((n =? 32) || (n =? 9) || (n =? 10) || (n =? 13))%nat.

Fixpoint skip_ws (s : string) : string :=
  match s with
  | String c rest => if is_ws c then skip_ws rest else s
  | EmptyString => s
  end.

Fixpoint strip_prefix (p s : string) : option string :=
  match p, s with
  | EmptyString, _ => Some s
  | String a p', String b s' => if Ascii.eqb a b then strip_prefix p' s' else None
  | String _ _, EmptyString => None
  end.

Definition digit (c : ascii) : option Z :=
  let n := nat_of_ascii c in
  if ((48 <=? n) && (n <=? 57))%nat then Some (Z.of_nat (n - 48)) else None.

Definition hex_digit (c : ascii) : option Z :=
  let n := nat_of_ascii c in
  if ((48 <=? n) && (n <=? 57))%nat then Some (Z.of_nat (n - 48))
  else if ((65 <=? n) && (n <=? 70))%nat then Some (Z.of_nat (n - 55))
  else if ((97 <=? n) && (n <=? 102))%nat then Some (Z.of_nat (n - 87))
  else None.

(** Reads a maximal run of digits: its value on top of [acc], its length
    on top of [len], and the rest. *)
Fixpoint digits (s : string) (acc : Z) (len : nat) : Z * nat * string :=
  match s with
  | String c rest =>
      match digit c with
      | Some d => digits rest (10 * acc + d)%Z (S len)
      | None => (acc, len, s)
      end
  | EmptyString => (acc, len, s)
  end.

(** The integer part: a single 0, or a digit from 1 to 9 and then any
    digits. *)
Definition int_part (s : string) : option (Z * string) :=
  match s with
  | String c rest =>
      match digit c with
      | Some 0%Z => Some (0%Z, rest)
      | Some d => let '(n, _, rest') := digits rest d 0 in Some (n, rest')
      | None => None
      end
  | EmptyString => None
  end.

(** A point and at least one digit: the mantissa so far extended by the
    fraction digits, and their number. *)
Definition frac_part (mantissa : Z) (s : string) : option (Z * nat * string) :=
  match s with
  | String "."%char rest =>
      match digits rest mantissa 0 with
      | (_, O, _) => None
      | r => Some r
      end
  | _ => None
  end.

(** An exponent: e or E, an optional sign, at least one digit. *)
Definition exp_part (s : string) : option (Z * string) :=
  match s with
  | String c rest =>
      if (Ascii.eqb c "e" || Ascii.eqb c "E")%bool then
        let '(neg, rest1) :=
          match rest with
          | String "-"%char r => (true, r)
          | String "+"%char r => (false, r)
          | _ => (false, rest)
          end in
        match digits rest1 0 0 with
        | (_, O, _) => None
        | (e, _, rest2) => Some (if neg then (- e)%Z else e, rest2)
        end
      else None
  | EmptyString => None
  end.

Definition scale (m : Z) (e : Z) : Q :=
  if (0 <=? e)%Z then inject_Z (m * 10 ^ e)
  else inject_Z m / inject_Z (10 ^ (- e)).

Definition number (s : string) : option (value * string) :=
  let '(neg, s1) :=
    match s with
    | String "-"%char r => (true, r)
    | _ => (false, s)
    end in
  match int_part s1 with
  | None => None
  | Some (n, s2) =>
      let sign (z : Z) := if neg then (- z)%Z else z in
      let '(m, fl, s3, has_frac) :=
        match frac_part n s2 with
        | Some (m, fl, s3) => (m, fl, s3, true)
        | None => (n, O, s2, false)
        end in
      match exp_part s3 with
      | Some (e, s4) => Some (VFloat (scale (sign m) (e - Z.of_nat fl)), s4)
      | None =>
          if has_frac then Some (VFloat (scale (sign m) (- Z.of_nat fl)), s3)
          else Some (VInt (sign n), s2)
      end
  end.

(** The character an escape letter stands for: quote, backslash and
    slash for themselves, then b, f, n, r and t. *)
Definition escape (c : ascii) : option ascii :=
  let n := nat_of_ascii c in
  if ((n =? 34) || (n =? 92) || (n =? 47))%nat then Some c
  else if (n =? 98)%nat then Some (ascii_of_nat 8)
  else if (n =? 102)%nat then Some (ascii_of_nat 12)
  else if (n =? 110)%nat then Some (ascii_of_nat 10)
  else if (n =? 114)%nat then Some (ascii_of_nat 13)
  else if (n =? 116)%nat then Some (ascii_of_nat 9)
  else None.

Definition quote : ascii := ascii_of_nat 34.

(** The characters of a string literal after its opening quote. *)
Fixpoint chars (s : string) : option (string * string) :=
  match s with
  | EmptyString => None
  | String c rest =>
      let n := nat_of_ascii c in
      if (n =? 34)%nat then Some (EmptyString, rest)
      else if (n <? 32)%nat then None
      else if (n =? 92)%nat then
        match rest with
        | String "u"%char (String a (String b (String c' (String d rest')))) =>
            match hex_digit a, hex_digit b, hex_digit c', hex_digit d with
            | Some 0%Z, Some 0%Z, Some h, Some l =>
                match chars rest' with
                | Some (t, r) =>
                    Some (String (ascii_of_nat (Z.to_nat (16 * h + l))) t, r)
                | None => None
                end
            | _, _, _, _ => None
            end
        | String e rest' =>
            match escape e, chars rest' with
            | Some x, Some (t, r) => Some (String x t, r)
            | _, _ => None
            end
        | EmptyString => None
        end
      else match chars rest with
           | Some (t, r) => Some (String c t, r)
           | None => None
           end
  end.

(** [d[k] = v] *)
Fixpoint dict_set (k : string) (v : value) (d : list (string * value))
  : list (string * value) :=
  match d with
  | [] => [(k, v)]
  | (k', v') :: d' =>
      if String.eqb k k' then (k, v) :: d' else (k', v') :: dict_set k v d'
  end.

(** A value at the head of [s]; [elements] and [members] read what
    follows the opening bracket of an array and of an object. The fuel
    bounds the nesting and the number of items. *)
Fixpoint parse (fuel : nat) (s : string) {struct fuel}
  : option (value * string) :=
  match fuel with
  | O => None
  | S fuel' =>
      match s with
      | EmptyString => None
      | String c rest =>
          if Ascii.eqb c "n" then
            option_map (pair VNone) (strip_prefix "null" s)
          else if Ascii.eqb c "t" then
            option_map (pair (VBool true)) (strip_prefix "true" s)
          else if Ascii.eqb c "f" then
            option_map (pair (VBool false)) (strip_prefix "false" s)
          else if Ascii.eqb c quote then
            match chars rest with
            | Some (t, r) => Some (VStr t, r)
            | None => None
            end
          else if Ascii.eqb c "[" then
            match skip_ws rest with
            | String "]"%char r => Some (VList [], r)
            | r => elements fuel' r []
            end
          else if Ascii.eqb c "{" then
            match skip_ws rest with
            | String "}"%char r => Some (VDict [], r)
            | r => members fuel' r []
            end
          else number s
      end
  end
with elements (fuel : nat) (s : string) (acc : list value) {struct fuel}
  : option (value * string) :=
  match fuel with
  | O => None
  | S fuel' =>
      match parse fuel' s with
      | None => None
      | Some (v, r) =>
          match skip_ws r with
          | String ","%char r' => elements fuel' (skip_ws r') (acc ++ [v])
          | String "]"%char r' => Some (VList (acc ++ [v]), r')
          | _ => None
          end
      end
  end
with members (fuel : nat) (s : string) (acc : list (string * value))
       {struct fuel} : option (value * string) :=
  match fuel with
  | O => None
  | S fuel' =>
      match s with
      | EmptyString => None
      | String c rest =>
          if Ascii.eqb c quote then
            match chars rest with
            | None => None
            | Some (k, r) =>
                match skip_ws r with
                | String ":"%char r1 =>
                    match parse fuel' (skip_ws r1) with
                    | None => None
                    | Some (v, r2) =>
                        match skip_ws r2 with
                        | String ","%char r3 =>
                            members fuel' (skip_ws r3) (dict_set k v acc)
                        | String "}"%char r3 =>
                            Some (VDict (dict_set k v acc), r3)
                        | _ => None
                        end
                    end
                | _ => None
                end
            end
          else None
      end
  end.

Definition read (s : string) : option value :=
  let s' := skip_ws s in
  match parse (2 * String.length s' + 2) s' with
  | Some (v, r) =>
      match skip_ws r with
      | EmptyString => Some v
      | _ => None
      end
  | None => None
  end.

Definition loads (s : string) : loaded :=
  match read s with
  | Some v => Loaded v
  | None => NotLoaded NotJSON
  end.

(** The deepest nesting of brackets and braces in [s], string literals
    apart. *)
Fixpoint nesting (s : string) (in_string escaping : bool)
         (depth deepest : nat) : nat :=
  match s with
  | EmptyString => deepest
  | String c rest =>
      if in_string then
        if escaping then nesting rest true false depth deepest
        else if Ascii.eqb c "\" then nesting rest true true depth deepest
        else if Ascii.eqb c quote then nesting rest false false depth deepest
        else nesting rest true false depth deepest
      else if Ascii.eqb c quote then nesting rest true false depth deepest
      else if (Ascii.eqb c "[" || Ascii.eqb c "{")%bool then
        nesting rest false false (S depth) (Nat.max deepest (S depth))
      else if (Ascii.eqb c "]" || Ascii.eqb c "}")%bool then
        nesting rest false false (pred depth) deepest
      else nesting rest false false depth deepest
  end.

(** The reader with a limit of nesting, for text that is JSON up to the
    point where it passes the limit. *)
Definition loads_within (limit : nat) (s : string) : loaded :=
  if (limit <? nesting s false false 0 0)%nat then NotLoaded TooDeep
  else loads s.

(** *** A writer for JSON text

    [Json.dumps] writes a value the way [json.dumps] lays it out, with a
    comma and a space between items and a colon and a space after a key.
    A float is written with six decimals, which is not always the text
    Python chooses; the writer serves to run the server on concrete
    inputs. *)

Definition nat_text (n : nat) : string :=
  NilEmpty.string_of_uint (Nat.to_uint n).

Definition int_text (z : Z) : string :=
  if (z <? 0)%Z then ("-" ++ nat_text (Z.to_nat (- z)))%string
  else nat_text (Z.to_nat z).

Fixpoint zeros (n : nat) : string :=
  match n with
  | O => EmptyString
  | S n' => String "0" (zeros n')
  end.

Definition float_text (q : Q) : string :=
  let a := Z.abs (Qnum q) in
  let den := Zpos (Qden q) in
  let whole := (a / den)%Z in
  let part := nat_text (Z.to_nat (((a mod den) * 1000000) / den)) in
  ((if (Qnum q <? 0)%Z then "-" else "")
   ++ nat_text (Z.to_nat whole) ++ "."
   ++ zeros (6 - String.length part) ++ part)%string.

Definition hex_char (n : nat) : ascii :=
  ascii_of_nat (if (n <? 10)%nat then 48 + n else 87 + n).

(** The text between the quotes of a string literal. *)
Fixpoint escaped (s : string) : string :=
  match s with
  | EmptyString => EmptyString
  | String c rest =>
      let n := nat_of_ascii c in
      ((if ((n =? 34) || (n =? 92))%nat then String "\" (String c EmptyString)
        else if ((n <? 32) || (126 <? n))%nat then
          String "\" (String "u" (String "0" (String "0"
            (String (hex_char (n / 16))
               (String (hex_char (n mod 16)) EmptyString)))))
        else String c EmptyString)
       ++ escaped rest)%string
  end.

Definition quoted (s : string) : string :=
  (String quote (escaped s) ++ String quote EmptyString)%string.

Fixpoint dumps (v : value) : string :=
  match v with
  | VNone => "null"
  | VBool true => "true"
  | VBool false => "false"
  | VInt n => int_text n
  | VFloat q => float_text q
  | VStr s => quoted s
  | VList l =>
      ("["
       ++ (fix items (l : list value) : string :=
             match l with
             | [] => EmptyString
             | [x] => dumps x
             | x :: rest => dumps x ++ ", " ++ items rest
             end) l
       ++ "]")%string
  | VDict d =>
      ("{"
       ++ (fix members (d : list (string * value)) : string :=
             match d with
             | [] => EmptyString
             | [(k, x)] => quoted k ++ ": " ++ dumps x
             | (k, x) :: rest => quoted k ++ ": " ++ dumps x ++ ", " ++ members rest
             end) d
       ++ "}")%string
  end.

(** Frames are written below with an apostrophe where the wire has a
    double quote; [wire] puts the double quotes back. *)
Fixpoint wire (s : string) : string :=
  match s with
  | EmptyString => EmptyString
  | String c rest =>
      String (if Ascii.eqb c "'" then quote else c) (wire rest)
  end.

End Json.

(** * Terms of the statements *)

(** ** The server *)

Section ServerTerms.

Import Server.

(** What one write of the fan-out leaves in the trace. *)
Definition attempt (down : sock -> bool) (bytes : string) (c : client)
  : event :=
  if down (fst c) then SendFailed (fst c) bytes else Sent (fst c) bytes.

(** What dropping one client leaves in the trace. *)
Definition removal (c : client) : list event := [Remove c; Closed (fst c)].

Definition failing (down : sock -> bool) (c : client) : bool := down (fst c).

Definition add_trace (l : list event) (s : state) : state :=
  mk_state (clients s) (pir_state s) (motion_count s) (last_state_change s)
           (previous_state s) (send_counter s) (trace s ++ l).

(** The globals after the sensor part of a tick: the count, the previous
    reading and the time of change are touched only when the reading
    differs from the previous one. *)
Definition after_reading (i : tick_input) (s : state) : state :=
  set_pir_state (reading i)
    (if negb (Z.eqb (reading i) (previous_state s))
     then set_last_state_change (time_at_change i)
            (set_previous_state (reading i)
               (if Z.eqb (reading i) 1
                then set_motion_count (motion_count s + 1) s
                else s))
     else s).

(** The count the specification speaks of: the number of ticks whose
    previous reading is 0 and whose reading is 1. *)
Fixpoint rising_edges (prev : Z) (readings : list Z) : Z :=
  match readings with
  | [] => 0
  | r :: rest =>
      (if Z.eqb prev 0 && Z.eqb r 1 then 1 else 0) + rising_edges r rest
  end%Z.

Definition bit (z : Z) : Prop := z = 0%Z \/ z = 1%Z.

Definition is_dumps (e : event) : bool :=
  match e with Dumps _ => true | _ => false end.

(** The bytes an event handed to [send], if it is a write. *)
Definition written (e : event) : option (sock * string) :=
  match e with
  | Sent k b | SendFailed k b => Some (k, b)
  | _ => None
  end.

End ServerTerms.

(** The claim that a connection whose welcome send fails is left out of
    the registry. *)
Definition failed_welcome_is_not_registered : Prop :=
  forall dumps down stamp k addr s,
    down k = true ->
    ~ In (k, addr)
         (Server.clients
            (snd (Server.handle_client dumps down stamp k addr s))).

Definition tick (r : Z) : Server.tick_input :=
  {| Server.reading := r; Server.time_at_change := 10;
     Server.time_at_send := 10; Server.iso_now := "2024-01-01T00:00:00";
     Server.down := fun _ => false |}.

(** ** The client: query and decoder *)

Section DecoderTerms.

Import Client.

Variable loads : string -> loaded.

(** The debounce window in seconds. *)
Definition window (cfg : settings) : Q :=
  inject_Z (motion_debounce_ms cfg) / 1000.

(** [d.get(key, default)] on the association list of a [dict]. *)
Definition field (d : list (string * value)) (key : string) (default : value)
  : value :=
  match lookup key d with Some v => v | None => default end.

(** The decoder state after a rising edge seen at [now]. *)
Definition mark_motion (now : Q) (count : value) (fr : frame) : frame :=
  on_self (fun c => emit (LogMotion count)
                      (set_last_motion_time now (set_motion_detected true c)))
          fr.

(** What [on_message] makes of a [dict]. *)
Definition decoded (now : Q) (d : list (string * value)) (fr : frame)
  : frame :=
  if eq_str (field d "type" VNone) "pir_state" then
    let current_state := field d "state" (VInt 0) in
    set_previous_state current_state
      (if eq_int current_state 1 && eq_int (previous_state fr) 0
       then mark_motion now (field d "motion_count" (VInt 0)) fr
       else fr)
  else if eq_str (field d "type" VNone) "welcome" then
    set_previous_state (field d "pir_state" (VInt 0))
      (on_self (emit (LogWelcome (field d "message" VNone))) fr)
  else fr.

Definition is_dict (m : value) : bool :=
  match m with VDict _ => true | _ => false end.

Definition nl : string := String newline EmptyString.

(** The loop at the fuel that [receive_step] gives it. *)
Definition drain_all (now : Q) : M frame unit :=
  fun fr => drain loads now (String.length (buffer fr)) fr.

(** Frames put on the wire one after the other, each closed by a
    newline. *)
Fixpoint frames_text (lines : list string) : string :=
  match lines with
  | [] => EmptyString
  | l :: rest => (l ++ nl ++ frames_text rest)%string
  end.

(** Two runs end alike: same outcome, same client object, same previous
    state, and, unless an exception ended them, the same buffer. After an
    exception the loop is left and [buffer] is never read again. *)
Definition alike {A} (r r' : outcome A * frame) : Prop :=
  fst r = fst r' /\
  self (snd r) = self (snd r') /\
  previous_state (snd r) = previous_state (snd r') /\
  match fst r with
  | Ret _ => buffer (snd r) = buffer (snd r')
  | Raise _ => True
  end.

(** Running [decoded] over the records of several frames in turn. *)
Definition decode_all (now : Q) (ds : list (list (string * value)))
           (fr : frame) : frame :=
  fold_left (fun fr d => decoded now d fr) ds fr.

(** A frame as text and as the [dict] that [json.loads] makes of it: one
    line, not blank. *)
Definition frame_of (f : string * list (string * value)) : Prop :=
  split_newline (fst f) = None /\
  strip_nonempty (fst f) = true /\
  loads (fst f) = Loaded (VDict (snd f)).

(** A [dict] of type [pir_state] whose [state] is the integer [v]. *)
Definition carries_state (d : list (string * value)) (v : Z) : Prop :=
  lookup "type" d = Some (VStr "pir_state") /\
  lookup "state" d = Some (VInt v).

(** The count the specification speaks of: the number of records whose
    state is 1 while the previous state is 0. *)
Fixpoint edges (prev : value) (states : list Z) : nat :=
  match states with
  | [] => O
  | v :: rest =>
      ((if eq_int prev 0 && Z.eqb v 1 then 1 else 0) + edges (VInt v) rest)%nat
  end.

Definition is_motion (e : event) : bool :=
  match e with LogMotion _ => true | _ => false end.

(** The number of motion reports in a trace. *)
Definition motions (t : list event) : nat := length (filter is_motion t).

End DecoderTerms.

(** ** The client: discovery *)

Section DiscoveryTerms.

Import Client.

Variable cfg : settings.

Variable connect_ex : string -> Z -> outcome Z.

(** The probe of [ip] succeeds: [connect_ex] returns 0. *)
Definition accepts (ip : string) : bool :=
  match connect_ex ip (port cfg) with
  | Ret 0%Z => true
  | _ => false
  end.

(** The addresses of a /24 network from .1 to .254. *)
Definition hosts_of (network_prefix : string) (range : list nat)
  : list string :=
  map (fun i => (network_prefix ++ str i)%string) range.

(** What a scan of [hosts] leaves in the trace. *)
Fixpoint scan_events (hosts : list string) : list event :=
  match hosts with
  | [] => [LogNotFound]
  | ip :: rest =>
      Probe ip (port cfg) (5 # 100)
      :: (if accepts ip then [LogFound ip; ProbeClosed ip]
          else ProbeClosed ip :: scan_events rest)
  end.


(** The addresses probed according to a trace. *)
Fixpoint probed (t : list event) : list string :=
  match t with
  | [] => []
  | Probe ip _ _ :: t' => ip :: probed t'
  | _ :: t' => probed t'
  end.

Definition add_events (l : list event) (c : PIRClient) : PIRClient :=
  mk_client (connected c) (motion_detected c) (last_motion_time c)
            (running c) (trace c ++ l).


End DiscoveryTerms.


(** ** Frames for concrete runs *)

(** A state record as the server writes it. *)
Definition state_line (v : Z) : string :=
  Json.wire
    ("{'type': 'pir_state', 'timestamp': '2024-01-01T00:00:00.100000', 'state': "
     ++ (if Z.eqb v 0 then "0, 'motion': false" else "1, 'motion': true")
     ++ ", 'pin': 24, 'motion_count': 1, 'time_since_change': 0.0, 'clients_connected': 2}").

Definition welcome_line : string :=
  Json.wire
    "{'type': 'welcome', 'message': 'Connected to PIR server', 'timestamp': '2024-01-01T00:00:00', 'pir_state': 1}".

(** A record of type [pir_state] that lacks its [state]. *)
Definition stateless_line : string :=
  Json.wire "{'type': 'pir_state', 'timestamp': '2024-01-01T00:00:00'}".

Definition fields_of (line : string) : list (string * value) :=
  match Json.loads line with
  | Loaded (VDict d) => d
  | _ => []
  end.

Definition parsed (line : string) : string * list (string * value) :=
  (line, fields_of line).

(** C8 as the specification words it, for a reader [loads]: whatever the
    frame [bad] is that does not parse to a record, a turn of the receive
    loop that reads it in front of a record ends as the turn that reads
    the record alone. *)
Definition unparsed_frame_is_skipped (loads : string -> loaded) : Prop :=
  forall now bad good d fr,
    Client.split_newline bad = None ->
    (forall d', loads bad <> Loaded (VDict d')) ->
    frame_of loads (good, d) ->
    Client.buffer fr = EmptyString ->
    let step := Client.receive_step loads now
                  (Ret (bad ++ nl ++ good ++ nl)%string) fr in
    let alone := Client.receive_step loads now (Ret (good ++ nl)%string) fr in
    fst step = fst alone /\
    Client.self (snd step) = Client.self (snd alone) /\
    Client.previous_state (snd step) = Client.previous_state (snd alone).

(** A welcome record as the server writes it while the sensor is idle. *)
Definition idle_welcome_line : string :=
  Json.wire
    "{'type': 'welcome', 'message': 'Connected to PIR server', 'timestamp': '2024-01-01T00:00:00', 'pir_state': 0}".

(** ** Further terms: the server *)

Section MoreServerTerms.

Import Server.


(** The connections for which a run of the accept loop starts a handler
    thread, in the order of acceptance. *)
Fixpoint started_for (inputs : list (outcome client * outcome unit))
  : list client :=
  match inputs with
  | [] => []
  | (Ret c, Ret _) :: rest => c :: started_for rest
  | _ :: rest => started_for rest
  end.

(** A step of a handler thread: the registration of its connection, or
    the welcome with the timestamp and the failing sockets of that
    moment. *)
Inductive handler_step : Type :=
| Registers (c : client)
| Welcomes (c : client) (stamp : string) (down : sock -> bool).

Definition handler_does (dumps : value -> string) (h : handler_step)
  : M state unit :=
  match h with
  | Registers c => register c
  | Welcomes c stamp down => welcome dumps down stamp c
  end.

(** The steps of the handler threads in the order in which they happen. *)
Fixpoint handlers_run (dumps : value -> string) (steps : list handler_step)
  : M state unit :=
  match steps with
  | [] => ret tt
  | h :: rest => handler_does dumps h ;; handlers_run dumps rest
  end.

(** The connections registered by a run of handler steps, oldest first. *)
Fixpoint registered_by (steps : list handler_step) : list client :=
  match steps with
  | [] => []
  | Registers c :: rest => c :: registered_by rest
  | Welcomes _ _ _ :: rest => registered_by rest
  end.

(** What a run of handler steps leaves in the trace. *)
Fixpoint handler_events (dumps : value -> string) (pir : Z)
         (steps : list handler_step) : list event :=
  match steps with
  | [] => []
  | Registers c :: rest => Append c :: handler_events dumps pir rest
  | Welcomes c stamp down :: rest =>
      [Dumps (welcome_msg stamp pir);
       attempt down (dumps (welcome_msg stamp pir) ++ newline) c]
      ++ handler_events dumps pir rest
  end.

(** The state records that the ticks of a run build, sent or not. *)
Fixpoint records (dumps : value -> string) (inputs : list tick_input)
         (s : state) : list value :=
  match inputs with
  | [] => []
  | i :: rest =>
      state_record i (reading i) (after_reading i s)
      :: records dumps rest (snd (monitor_tick dumps i s))
  end.

(** What a tick whose writes all succeed leaves in the trace. *)
Definition delivery (dumps : value -> string) (l : list client) (data : value)
  : list event :=
  Dumps data :: map (fun c => Sent (fst c) (dumps data ++ newline)) l.

(** The clock never runs backwards over the ticks of a run that starts
    at [t0]. *)
Fixpoint clock_ok (t0 : Q) (inputs : list tick_input) : Prop :=
  match inputs with
  | [] => True
  | i :: rest =>
      t0 <= time_at_change i /\ time_at_change i <= time_at_send i /\
      clock_ok (time_at_send i) rest
  end.

(** The field [time_since_change] of a record is a number that is not
    negative. *)
Definition elapsed_ok (data : value) : Prop :=
  match data with
  | VDict d =>
      match lookup "time_since_change" d with
      | Some (VInt n) => n = 0%Z
      | Some (VFloat q) => 0 <= q
      | _ => False
      end
  | _ => False
  end.





End MoreServerTerms.
(** ** Further terms: the client *)

Section MoreClientTerms.

Import Client.

(** [recv] timed out. *)
Definition is_timeout (received : outcome string) : bool :=
  match received with
  | Raise socket_timeout => true
  | _ => false
  end.

(** The loop can go round: neither stopped nor disconnected. *)
Definition live (fr : frame) : bool :=
  running (self fr) && connected (self fr).

(** A line that the decoder passes over: blank, rejected by [json.loads],
    or a [dict] whose type is neither [pir_state] nor [welcome]. *)
Definition passed_over (loads : string -> loaded) (line : string)
  : Prop :=
  strip_nonempty line = false \/
  loads line = NotLoaded NotJSON \/
  exists d, loads line = Loaded (VDict d) /\
            eq_str (field d "type" VNone) "pir_state" = false /\
            eq_str (field d "type" VNone) "welcome" = false.

(** The decoder went from [fr] to [fr']: the motion reports only grow;
    flag and time are touched only together with a report, and a report
    leaves the flag set; the flag is never cleared, [running] is never
    touched and [connected] is never set. *)
Definition advanced (fr fr' : frame) : Prop :=
  (motions (trace (self fr)) <= motions (trace (self fr')))%nat /\
  (motions (trace (self fr)) = motions (trace (self fr')) ->
   motion_detected (self fr') = motion_detected (self fr) /\
   last_motion_time (self fr') = last_motion_time (self fr)) /\
  ((motions (trace (self fr)) < motions (trace (self fr')))%nat ->
   motion_detected (self fr') = true) /\
  (motion_detected (self fr) = true -> motion_detected (self fr') = true) /\
  running (self fr') = running (self fr) /\
  (connected (self fr') = true -> connected (self fr) = true).

(** The probe sockets closed according to a trace, oldest first. *)
Fixpoint probe_closes (t : list event) : list string :=
  match t with
  | [] => []
  | ProbeClosed ip :: t' => ip :: probe_closes t'
  | _ :: t' => probe_closes t'
  end.

(** [c in s] for a character. *)
Fixpoint contains (c : ascii) (s : string) : bool :=
  match s with
  | EmptyString => false
  | String x s' => Ascii.eqb x c || contains c s'
  end.

(** How a scan that creates its probe sockets ends: with what the
    creation of a probe socket raises, unless a host before it
    accepted. *)
Fixpoint scan_sockets_outcome (cfg : settings)
         (socket_socket : string -> outcome unit)
         (connect_ex : string -> Z -> outcome Z) (hosts : list string)
  : outcome (option string) :=
  match hosts with
  | [] => Ret None
  | ip :: rest =>
      match socket_socket ip with
      | Raise e => Raise e
      | Ret _ =>
          if accepts cfg connect_ex ip then Ret (Some ip)
          else scan_sockets_outcome cfg socket_socket connect_ex rest
      end
  end.

(** What that scan leaves in the trace. *)
Fixpoint scan_sockets_events (cfg : settings)
         (socket_socket : string -> outcome unit)
         (connect_ex : string -> Z -> outcome Z) (hosts : list string)
  : list event :=
  match hosts with
  | [] => [LogNotFound]
  | ip :: rest =>
      match socket_socket ip with
      | Raise _ => []
      | Ret _ =>
          Probe ip (port cfg) (5 # 100)
          :: (if accepts cfg connect_ex ip then [LogFound ip; ProbeClosed ip]
              else ProbeClosed ip
                   :: scan_sockets_events cfg socket_socket connect_ex rest)
      end
  end.

(** The address [connect] goes for: the one given, or else what the
    search returns or raises. *)
Definition target_of (cfg : settings) (local_ip : outcome string)
           (socket_socket : string -> outcome unit)
           (connect_ex : string -> Z -> outcome Z) (ip : option string)
           (c : PIRClient) : outcome (option string) :=
  if truthy ip then Ret ip
  else fst (find_raspberry_pi_sockets cfg local_ip socket_socket connect_ex c).

End MoreClientTerms.
(** ** Further terms: server and client together *)

(** [loads] reads back, from the text that [dumps] wrote for a record, a
    one-line frame with the type and the state of the record. *)
Definition well_read (loads : string -> loaded)
           (dumps : value -> string) (data : value) : Prop :=
  match data with
  | VDict d0 =>
      exists d, frame_of loads (dumps data, d) /\
                lookup "type" d = lookup "type" d0 /\
                lookup "state" d = lookup "state" d0
  | _ => False
  end.
(** ** Further inputs for concrete runs *)

(** A tick with the reading [r] at the time [t]. *)
Definition tick_at (r : Z) (t : Q) : Server.tick_input :=
  {| Server.reading := r; Server.time_at_change := t;
     Server.time_at_send := t; Server.iso_now := "2024-01-01T00:00:00";
     Server.down := fun _ => false |}.

(** A record of a type the client does not know. *)
Definition ping_line : string := Json.wire "{'type': 'ping', 'seq': 7}".

(** A state record with the state 2. *)
Definition odd_line : string :=
  Json.wire "{'type': 'pir_state', 'state': 2}".

(** A state record cut after its first character. *)
Definition head_of (line : string) : string :=
  match line with
  | String c _ => String c EmptyString
  | EmptyString => EmptyString
  end.

Definition tail_of (line : string) : string :=
  match line with
  | String _ rest => rest
  | EmptyString => EmptyString
  end.

(** [n] opening brackets in front of [s]. *)
Fixpoint opened (n : nat) (s : string) : string :=
  match n with
  | O => s
  | S n' => String "[" (opened n' s)
  end.

(** An array nested [n] deep at its deepest. *)
Definition nested (n : nat) : string :=
  opened n (string_of_list_ascii (repeat "]"%char n)).

(** * Properties *)

(** ** Running computations *)

Ltac run :=
  unfold bind, ret, raise, get, modify, try_except, Client.answer; simpl.

Lemma bind_ret_run {S A B} (c : M S A) (k : A -> M S B) s a s' :
  c s = (Ret a, s') -> bind c k s = k a s'.
Proof. intros H. unfold bind. now rewrite H. Qed.

Lemma bind_raise_run {S A B} (c : M S A) (k : A -> M S B) s e s' :
  c s = (Raise e, s') -> bind c k s = (Raise e, s').
Proof. intros H. unfold bind. now rewrite H. Qed.

(** ** The server *)

Section ServerProps.

Import Server.

Variable dumps : value -> string.

Lemma add_trace_nil s : add_trace [] s = s.
Proof. destruct s; unfold add_trace; simpl. now rewrite app_nil_r. Qed.

Lemma add_trace_app l1 l2 s :
  add_trace l2 (add_trace l1 s) = add_trace (l1 ++ l2) s.
Proof. unfold add_trace; simpl. now rewrite app_assoc. Qed.

Lemma emit_add_trace e s : emit e s = add_trace [e] s.
Proof. reflexivity. Qed.

Lemma client_eqb_eq a b : client_eqb a b = true <-> a = b.
Proof.
  destruct a as [sa [ia pa]], b as [sb [ib pb]]; unfold client_eqb; simpl.
  rewrite !andb_true_iff, Nat.eqb_eq, String.eqb_eq, Z.eqb_eq.
  split.
  - intros [[-> ->] ->]; reflexivity.
  - intros H; inversion H; auto.
Qed.

Lemma client_eqb_refl a : client_eqb a a = true.
Proof. now apply client_eqb_eq. Qed.

Lemma client_in_In c l : client_in c l = true <-> In c l.
Proof.
  unfold client_in. rewrite existsb_exists. split.
  - intros [x [Hx E]]. apply client_eqb_eq in E. now subst.
  - intros H. exists c. split; [assumption | apply client_eqb_refl].
Qed.

Lemma send_all_run down message l d s :
  send_all down message l d s =
  (Ret (d ++ filter (failing down) l),
   add_trace (map (attempt down message) l) s).
Proof.
  revert d s. induction l as [|[sk addr] l IH]; intros d s.
  - simpl. unfold ret. now rewrite app_nil_r, add_trace_nil.
  - simpl. unfold failing at 1, attempt at 1, send; simpl.
    destruct (down sk) eqn:E; run; rewrite IH, emit_add_trace, add_trace_app;
      simpl; [now rewrite <- app_assoc | reflexivity].
Qed.

(** Removing the members of [l] that fail, one after the other, from a
    list that ends in [l] and starts with members that do not fail. *)
Lemma remove_all_run down l : forall q s,
  Forall (fun c => failing down c = false) q ->
  clients s = q ++ l ->
  remove_all (filter (failing down) l) s =
  (Ret tt,
   add_trace (flat_map removal (filter (failing down) l))
             (set_clients (q ++ filter (fun c => negb (failing down c)) l) s)).
Proof.
  induction l as [|x l IH]; intros q s Hq Hs.
  - simpl. unfold ret. rewrite add_trace_nil.
    destruct s; simpl in *; subst; reflexivity.
  - simpl. destruct (failing down x) eqn:E; simpl.
    + run.
      assert (Hin : client_in x (clients s) = true).
      { apply client_in_In. rewrite Hs. apply in_or_app. right. now left. }
      rewrite Hin.
      assert (Hrm : list_remove x (clients s) = q ++ l).
      { rewrite Hs. clear Hs Hin IH. induction q as [|y q IHq]; simpl.
        - now rewrite client_eqb_refl.
        - inversion Hq as [|? ? Hy Hq']; subst.
          destruct (client_eqb y x) eqn:Eyx.
          + apply client_eqb_eq in Eyx. subst. congruence.
          + f_equal. now apply IHq. }
      rewrite Hrm. unfold close. run.
      rewrite (IH q); [| assumption | reflexivity].
      f_equal. unfold add_trace, emit, set_clients; simpl.
      rewrite <- !app_assoc. reflexivity.
    + rewrite (IH (q ++ [x]) s).
      * rewrite <- app_assoc. reflexivity.
      * apply Forall_app. split; [assumption | now constructor].
      * rewrite Hs, <- app_assoc. reflexivity.
Qed.

Lemma broadcast_run down message s :
  broadcast_to_clients down message s =
  (Ret tt,
   add_trace (map (attempt down message) (clients s)
              ++ flat_map removal (filter (failing down) (clients s)))
             (set_clients
                (filter (fun c => negb (failing down c)) (clients s)) s)).
Proof.
  unfold broadcast_to_clients.
  rewrite (bind_ret_run _ _ s (a := s) (s' := s)) by reflexivity.
  rewrite (bind_ret_run _ _ s (send_all_run down message (clients s) [] s)).
  simpl app.
  rewrite (remove_all_run down (clients s) (q := [])); [| constructor | reflexivity].
  simpl. f_equal. unfold add_trace, set_clients; simpl.
  now rewrite app_assoc.
Qed.

Lemma after_reading_frame i s :
  clients (after_reading i s) = clients s /\
  trace (after_reading i s) = trace s /\
  send_counter (after_reading i s) = send_counter s /\
  pir_state (after_reading i s) = reading i.
Proof.
  unfold after_reading.
  destruct (Z.eqb (reading i) (previous_state s)); simpl;
    [| destruct (Z.eqb (reading i) 1)]; repeat split.
Qed.

Lemma monitor_tick_run i s :
  monitor_tick dumps i s =
  (Ret tt,
   let s1 := after_reading i s in
   match clients s with
   | [] => s1
   | _ :: _ =>
       let data := state_record i (reading i) s1 in
       let bytes := (dumps data ++ newline)%string in
       set_send_counter (send_counter s + 1)
         (add_trace ([Dumps data]
                     ++ map (attempt (down i) bytes) (clients s)
                     ++ flat_map removal (filter (failing (down i)) (clients s)))
            (set_clients
               (filter (fun c => negb (failing (down i) c)) (clients s)) s1))
   end).
Proof.
  unfold monitor_tick, after_reading, json_dumps.
  destruct s as [cl ps mc lsc prev sc tr]; run.
  destruct (Z.eqb (reading i) prev) eqn:E1; simpl;
    [| destruct (Z.eqb (reading i) 1) eqn:E2; simpl];
    (destruct cl as [|c cl]; [reflexivity|]);
    rewrite broadcast_run; simpl; unfold add_trace, set_send_counter, emit;
    simpl; rewrite <- ?app_assoc; reflexivity.
Qed.

Lemma monitor_tick_ret i s : fst (monitor_tick dumps i s) = Ret tt.
Proof. now rewrite monitor_tick_run. Qed.

Lemma monitor_tick_previous_state i s :
  previous_state (snd (monitor_tick dumps i s)) = reading i.
Proof.
  rewrite monitor_tick_run. simpl. unfold after_reading.
  destruct (Z.eqb (reading i) (previous_state s)) eqn:E.
  - apply Z.eqb_eq in E. destruct (clients s); simpl; auto.
  - destruct (clients s); simpl; destruct (Z.eqb (reading i) 1); reflexivity.
Qed.

Lemma monitor_tick_motion_count i s :
  motion_count (snd (monitor_tick dumps i s)) =
  (motion_count s
   + (if negb (Z.eqb (reading i) (previous_state s)) && Z.eqb (reading i) 1
      then 1 else 0))%Z.
Proof.
  rewrite monitor_tick_run. simpl. unfold after_reading.
  destruct (Z.eqb (reading i) (previous_state s)) eqn:E; simpl.
  - destruct (clients s); simpl; lia.
  - destruct (clients s); simpl; destruct (Z.eqb (reading i) 1); simpl; lia.
Qed.

Lemma monitor_sensor_ret inputs : forall s,
  fst (monitor_sensor dumps inputs s) = Ret tt.
Proof.
  induction inputs as [|i inputs IH]; intros s; simpl.
  - reflexivity.
  - unfold bind. rewrite monitor_tick_run. apply IH.
Qed.

Lemma monitor_sensor_cons i inputs s :
  monitor_sensor dumps (i :: inputs) s =
  monitor_sensor dumps inputs (snd (monitor_tick dumps i s)).
Proof. simpl. unfold bind. now rewrite monitor_tick_run. Qed.

Lemma monitor_sensor_app a : forall b s,
  snd (monitor_sensor dumps (a ++ b) s) =
  snd (monitor_sensor dumps b (snd (monitor_sensor dumps a s))).
Proof.
  induction a as [|i a IH]; intros b s.
  - reflexivity.
  - rewrite <- app_comm_cons, !monitor_sensor_cons. apply IH.
Qed.

Lemma last_cons {A} (l : list A) : forall a d, last (a :: l) d = last l a.
Proof.
  induction l as [|b l IH]; intros a d.
  - reflexivity.
  - change (last (a :: b :: l) d) with (last (b :: l) d).
    rewrite (IH b d), (IH b a). reflexivity.
Qed.

Lemma monitor_sensor_previous_state inputs : forall s,
  previous_state (snd (monitor_sensor dumps inputs s)) =
  last (map reading inputs) (previous_state s).
Proof.
  induction inputs as [|i inputs IH]; intros s.
  - reflexivity.
  - rewrite monitor_sensor_cons, IH, monitor_tick_previous_state.
    simpl map. now rewrite last_cons.
Qed.

Lemma rising_edges_nonneg readings : forall prev,
  (0 <= rising_edges prev readings)%Z.
Proof.
  induction readings as [|r rest IH]; intros prev; simpl.
  - lia.
  - specialize (IH r). destruct (Z.eqb prev 0 && Z.eqb r 1); lia.
Qed.

Lemma edge_test_bits prev cur :
  bit prev -> bit cur ->
  negb (Z.eqb cur prev) && Z.eqb cur 1 = Z.eqb prev 0 && Z.eqb cur 1.
Proof. intros [-> | ->] [-> | ->]; reflexivity. Qed.

Lemma monitor_sensor_motion_count inputs : forall s,
  bit (previous_state s) ->
  Forall (fun j => bit (reading j)) inputs ->
  motion_count (snd (monitor_sensor dumps inputs s)) =
  (motion_count s + rising_edges (previous_state s) (map reading inputs))%Z.
Proof.
  induction inputs as [|i inputs IH]; intros s Hp Hall.
  - simpl. lia.
  - inversion Hall as [|? ? Hi Hrest]; subst.
    rewrite monitor_sensor_cons, IH; try assumption.
    + rewrite monitor_tick_previous_state, monitor_tick_motion_count.
      rewrite edge_test_bits by assumption. simpl. lia.
    + now rewrite monitor_tick_previous_state.
Qed.

(** C2. Over any run of the poll loop on readings that are 0 or 1,
    started with the previous state 0: a tick adds one to [motion_count]
    when the previous reading was 0 and the reading is 1 and leaves it
    alone on every other tick; the count never goes down; at the end it
    has grown by the number of 0-to-1 transitions of the run. *)
Theorem motion_count_counts_rising_edges pre i post s0 :
  previous_state s0 = 0%Z ->
  Forall (fun j => bit (reading j)) (pre ++ i :: post) ->
  let before := snd (monitor_sensor dumps pre s0) in
  let after := snd (monitor_tick dumps i before) in
  let final := snd (monitor_sensor dumps (pre ++ i :: post) s0) in
  let prev := last (map reading pre) 0%Z in
  fst (monitor_sensor dumps (pre ++ i :: post) s0) = Ret tt /\
  snd (monitor_sensor dumps (pre ++ [i]) s0) = after /\
  motion_count after =
    (motion_count before
     + (if Z.eqb prev 0 && Z.eqb (reading i) 1 then 1 else 0))%Z /\
  (motion_count before <= motion_count after <= motion_count final)%Z /\
  motion_count final =
    (motion_count s0 + rising_edges 0 (map reading (pre ++ i :: post)))%Z.
Proof.
  intros H0 Hall before after final prev.
  apply Forall_app in Hall. destruct Hall as [Hpre Hrest].
  inversion Hrest as [|? ? Hi Hpost]; subst.
  assert (Hprev : previous_state before = prev).
  { unfold before, prev. now rewrite monitor_sensor_previous_state, H0. }
  assert (Hbit : bit prev).
  { unfold prev. clear -Hpre. 
    assert (G : forall d, bit d -> bit (last (map reading pre) d)).
    { induction pre as [|j pre IH]; intros d Hd; [exact Hd|].
      simpl map. rewrite last_cons. inversion Hpre; subst. now apply IH. }
    apply G. now left. }
  assert (Hstep : motion_count after =
    (motion_count before
     + (if Z.eqb prev 0 && Z.eqb (reading i) 1 then 1 else 0))%Z).
  { unfold after. rewrite monitor_tick_motion_count, Hprev.
    now rewrite edge_test_bits. }
  assert (Hfinal : final = snd (monitor_sensor dumps post after)).
  { unfold final, after, before.
    now rewrite monitor_sensor_app, monitor_sensor_cons. }
  split; [apply monitor_sensor_ret|].
  split; [unfold after, before; now rewrite monitor_sensor_app, monitor_sensor_cons|].
  split; [exact Hstep|].
  split.
  - split.
    + rewrite Hstep. destruct (Z.eqb prev 0 && Z.eqb (reading i) 1); lia.
    + rewrite Hfinal, monitor_sensor_motion_count; try assumption.
      * pose proof (rising_edges_nonneg (map reading post) (previous_state after)).
        lia.
      * unfold after. now rewrite monitor_tick_previous_state.
  - unfold final. rewrite monitor_sensor_motion_count.
    + now rewrite H0.
    + rewrite H0. now left.
    + apply Forall_app. split; [assumption | now constructor].
Qed.

Lemma filter_dumps_attempts down bytes l :
  filter is_dumps (map (attempt down bytes) l) = [].
Proof.
  induction l as [|c l IH]; simpl; [reflexivity|].
  unfold attempt at 1. destruct (down (fst c)); simpl; exact IH.
Qed.

Lemma filter_dumps_removals l : filter is_dumps (flat_map removal l) = [].
Proof. induction l as [|c l IH]; simpl; [reflexivity | exact IH]. Qed.

Lemma written_attempts down bytes l k b e :
  In e (map (attempt down bytes) l) -> written e = Some (k, b) -> b = bytes.
Proof.
  rewrite in_map_iff. intros [c [<- _]]. unfold attempt.
  destruct (down (fst c)); simpl; congruence.
Qed.

Lemma written_removals l e :
  In e (flat_map removal l) -> written e = None.
Proof.
  rewrite in_flat_map. intros [c [_ H]]. simpl in H.
  destruct H as [<- | [<- | []]]; reflexivity.
Qed.

(** C6. A tick of the poll loop with a non-empty registry calls
    [json.dumps] once, on the state record, and hands the same bytes, that
    text and a newline, to [send] for every registered connection in
    registry order; every write of the tick carries those bytes. A tick
    with an empty registry serialises and sends nothing. *)
Theorem tick_fan_out_identical_bytes i s :
  let r := monitor_tick dumps i s in
  let data := state_record i (reading i) (after_reading i s) in
  let bytes := (dumps data ++ newline)%string in
  fst r = Ret tt /\
  match clients s with
  | [] => trace (snd r) = trace s
  | _ :: _ =>
      exists removals,
        trace (snd r) =
          trace s ++ [Dumps data]
                  ++ map (attempt (down i) bytes) (clients s) ++ removals /\
        length (filter is_dumps
                  ([Dumps data] ++ map (attempt (down i) bytes) (clients s)
                   ++ removals)) = 1%nat /\
        (forall e k b,
            In e ([Dumps data] ++ map (attempt (down i) bytes) (clients s)
                  ++ removals) ->
            written e = Some (k, b) -> b = bytes) /\
        (forall c, In c (clients s) ->
                   In (attempt (down i) bytes c)
                      (map (attempt (down i) bytes) (clients s)))
  end.
Proof.
  intros r data bytes. unfold r. rewrite monitor_tick_run. simpl.
  split; [reflexivity|].
  destruct (after_reading_frame i s) as (_ & Htr & _).
  destruct (clients s) as [|c l] eqn:E; [exact Htr|].
  exists (flat_map removal (filter (failing (down i)) (c :: l))).
  fold data. fold bytes.
  split; [|split; [|split]].
  - unfold set_send_counter, add_trace, set_clients. cbn [trace].
    now rewrite Htr.
  - cbn [app filter is_dumps length].
    rewrite filter_app, filter_dumps_attempts, filter_dumps_removals.
    reflexivity.
  - intros e k b Hin Hw. cbn [app] in Hin. destruct Hin as [<- | Hin].
    + discriminate.
    + apply in_app_or in Hin. destruct Hin as [Hin | Hin].
      * eapply written_attempts; eassumption.
      * apply written_removals in Hin. congruence.
  - intros c' Hc'. now apply in_map.
Qed.

(** C7. A broadcast returns normally whatever writes fail. The registry
    afterwards is the registry before without the connections whose write
    failed, the others in their order; each of those others was sent the
    message; each failing connection was removed and its socket closed,
    and no other socket was closed. *)
Theorem broadcast_drops_exactly_the_failing down message s :
  let r := broadcast_to_clients down message s in
  let news := map (attempt down message) (clients s)
              ++ flat_map removal (filter (failing down) (clients s)) in
  fst r = Ret tt /\
  trace (snd r) = trace s ++ news /\
  clients (snd r) = filter (fun c => negb (down (fst c))) (clients s) /\
  (forall c, In c (clients (snd r)) <->
             In c (clients s) /\ down (fst c) = false) /\
  (forall c, In c (clients (snd r)) -> In (Sent (fst c) message) news) /\
  (forall c, In c (clients s) /\ down (fst c) = true <->
             In (Remove c) news) /\
  (forall k, (exists c, In c (clients s) /\ fst c = k /\ down k = true) <->
             In (Closed k) news).
Proof.
  intros r news. unfold r. rewrite broadcast_run. simpl.
  split; [reflexivity|]. split; [reflexivity|]. split; [reflexivity|].
  assert (Hatt : forall e, In e (map (attempt down message) (clients s)) ->
                           exists c, In c (clients s) /\ e = attempt down message c).
  { intros e. rewrite in_map_iff. intros [c [<- Hc]]. eauto. }
  split; [|split; [|split]].
  - intros c. unfold failing. rewrite filter_In, negb_true_iff. tauto.
  - intros c. unfold failing. rewrite filter_In, negb_true_iff.
    intros [Hc Hd]. unfold news. apply in_or_app. left.
    apply in_map_iff. exists c. unfold attempt. now rewrite Hd.
  - intros c. unfold news. split.
    + intros [Hc Hd]. apply in_or_app. right. apply in_flat_map.
      exists c. split; [apply filter_In; now split | now left].
    + intros H. apply in_app_or in H. destruct H as [H | H].
      * apply Hatt in H. destruct H as [c' [_ H]]. unfold attempt in H.
        destruct (down (fst c')); discriminate.
      * apply in_flat_map in H. destruct H as [c' [Hc' H]].
        apply filter_In in Hc'. simpl in H.
        destruct H as [H | [H | []]]; [|discriminate].
        inversion H; subst. exact Hc'.
  - intros k. unfold news. split.
    + intros [c [Hc [<- Hd]]]. apply in_or_app. right. apply in_flat_map.
      exists c. split; [apply filter_In; now split | right; now left].
    + intros H. apply in_app_or in H. destruct H as [H | H].
      * apply Hatt in H. destruct H as [c' [_ H]]. unfold attempt in H.
        destruct (down (fst c')); discriminate.
      * apply in_flat_map in H. destruct H as [c' [Hc' H]].
        apply filter_In in Hc'. simpl in H.
        destruct H as [H | [H | []]]; [discriminate|].
        inversion H; subst. exists c'. tauto.
Qed.

Lemma handle_client_run down stamp k addr s :
  handle_client dumps down stamp k addr s =
  (Ret tt,
   let welcome := welcome_msg stamp (pir_state s) in
   add_trace [Append (k, addr); Dumps welcome;
              attempt down (dumps welcome ++ newline) (k, addr)]
             (set_clients (clients s ++ [(k, addr)]) s)).
Proof.
  unfold handle_client, json_dumps, send, attempt. run.
  destruct (down k); simpl; unfold add_trace, emit, set_clients; simpl;
    rewrite <- !app_assoc; reflexivity.
Qed.

(** C1, as the code has it. Accepting a connection first appends it to
    the registry and then makes one attempt to send it the welcome record,
    which carries the sensor state of that moment; the step returns
    normally and leaves the connection at the end of the registry whether
    the send succeeded or failed. *)
Theorem handle_client_registers_then_welcomes down stamp k addr s :
  let r := handle_client dumps down stamp k addr s in
  let welcome := welcome_msg stamp (pir_state s) in
  let bytes := (dumps welcome ++ newline)%string in
  fst r = Ret tt /\
  clients (snd r) = clients s ++ [(k, addr)] /\
  In (k, addr) (clients (snd r)) /\
  match welcome with
  | VDict d => lookup "type" d = Some (VStr "welcome") /\
               lookup "pir_state" d = Some (VInt (pir_state s))
  | _ => False
  end /\
  trace (snd r) =
    trace s ++ [Append (k, addr); Dumps welcome;
                if down k then SendFailed k bytes else Sent k bytes].
Proof.
  intros r welcome bytes. unfold r. rewrite handle_client_run. simpl.
  split; [reflexivity|]. split; [reflexivity|].
  split; [apply in_or_app; right; now left|].
  split; [split; reflexivity | reflexivity].
Qed.

End ServerProps.

(** C1, counterexample. On an empty registry, accepting connection 7
    while the write to it fails leaves it registered, and the registration
    precedes the failed write. *)
Lemma failed_welcome_stays_registered :
  let r := Server.handle_client (fun _ => "{}"%string) (fun _ => true)
             "2024-01-01T00:00:00"%string 7%nat ("10.0.0.9"%string, 40000%Z)
             Server.initial in
  Server.clients (snd r) = [(7%nat, ("10.0.0.9"%string, 40000%Z))] /\
  (exists w b,
     Server.trace (snd r) =
       [Server.Append (7%nat, ("10.0.0.9"%string, 40000%Z));
        Server.Dumps w; Server.SendFailed 7%nat b]) /\
  ~ failed_welcome_is_not_registered.
Proof.
  split; [reflexivity|]. split.
  - eexists. eexists. reflexivity.
  - intros H.
    apply (H (fun _ => "{}"%string) (fun _ => true) "t"%string 7%nat
             ("10.0.0.9"%string, 40000%Z) Server.initial eq_refl).
    simpl. now left.
Qed.

(** Three registered clients, the write to the second fails: it alone is
    dropped, and the next tick reaches the other two. *)
Example one_of_three_fails :
  let a := (1%nat, ("10.0.0.1"%string, 50001%Z)) in
  let b := (2%nat, ("10.0.0.2"%string, 50002%Z)) in
  let c := (3%nat, ("10.0.0.3"%string, 50003%Z)) in
  let s := Server.set_clients [a; b; c] Server.initial in
  let s1 := snd (Server.broadcast_to_clients (fun k => Nat.eqb k 2) "x" s) in
  let s2 := snd (Server.broadcast_to_clients (fun _ => false) "y" s1) in
  Server.clients s1 = [a; c] /\
  Server.trace s1 =
    [Server.Sent 1%nat "x"; Server.SendFailed 2%nat "x"; Server.Sent 3%nat "x";
     Server.Remove b; Server.Closed 2%nat] /\
  Server.trace s2 =
    Server.trace s1 ++ [Server.Sent 1%nat "y"; Server.Sent 3%nat "y"].
Proof. repeat split. Qed.

(** C2, witness: the readings 0,0,1,1,0,1 from the initial state. *)
Lemma motion_count_counts_rising_edges_witness :
  Server.motion_count
    (snd (Server.monitor_sensor (fun _ => "{}"%string)
            (map tick [0; 0; 1; 1; 0; 1]%Z) Server.initial)) = 2%Z.
Proof.
  assert (Hbits : Forall (fun j => bit (Server.reading j))
                         (map tick [0; 0]%Z ++ tick 1 :: map tick [1; 0; 1]%Z)).
  { repeat (apply Forall_cons; [unfold bit; simpl; auto|]). apply Forall_nil. }
  destruct (motion_count_counts_rising_edges (fun _ => "{}"%string)
              (map tick [0; 0]%Z) (tick 1) (map tick [1; 0; 1]%Z)
              Server.initial eq_refl Hbits) as (_ & _ & _ & _ & H).
  exact H.
Defined.

(** ** The client: the debounced query *)

Section MotionQuery.

Import Client.

Lemma Qlt_bool_iff a b : Qlt_bool a b = true <-> a < b.
Proof.
  unfold Qlt_bool. rewrite negb_true_iff. split.
  - intros H. apply Qnot_le_lt. intros Hle.
    apply Qle_bool_iff in Hle. congruence.
  - intros H. destruct (Qle_bool b a) eqn:E; [|reflexivity].
    apply Qle_bool_iff in E. exfalso. exact (Qlt_not_le _ _ H E).
Qed.

Lemma get_motion_run cfg now c :
  get_motion cfg now c =
  if motion_detected c && Qlt_bool (window cfg) (now - last_motion_time c)
  then (Ret true, set_motion_detected false c)
  else (Ret false, c).
Proof.
  unfold get_motion, window. run.
  destruct (motion_detected c); simpl; [|reflexivity].
  destruct (Qlt_bool _ _); reflexivity.
Qed.

(** C3. [get_motion] answers true exactly when the flag is set and the
    time since the recorded motion is strictly greater than the debounce
    window; it then clears the flag and changes nothing else; in every
    other case it answers false and changes nothing. After an answer of
    true the next call, whenever it is made, answers false. *)
Theorem get_motion_consumes_edge_once cfg now now' c :
  let r := get_motion cfg now c in
  (fst r = Ret true <->
   motion_detected c = true /\ window cfg < now - last_motion_time c) /\
  (fst r = Ret false <->
   ~ (motion_detected c = true /\ window cfg < now - last_motion_time c)) /\
  (fst r = Ret true -> snd r = set_motion_detected false c) /\
  (fst r = Ret false -> snd r = c) /\
  (fst r = Ret true -> fst (get_motion cfg now' (snd r)) = Ret false).
Proof.
  intros r. unfold r. rewrite get_motion_run.
  destruct (motion_detected c) eqn:Ef; cbn [andb];
    [destruct (Qlt_bool (window cfg) (now - last_motion_time c)) eqn:Et|];
    cbn [fst snd].
  - apply Qlt_bool_iff in Et.
    split; [tauto|]. split; [split; [discriminate | tauto]|].
    split; [reflexivity|]. split; [discriminate|].
    intros _. rewrite get_motion_run. reflexivity.
  - assert (Hn : ~ window cfg < now - last_motion_time c).
    { intros H. apply Qlt_bool_iff in H. congruence. }
    split; [split; [discriminate | tauto]|]. split; [tauto|].
    split; [discriminate|]. split; [reflexivity | discriminate].
  - split; [split; [discriminate | intros [H _]; discriminate]|].
    split; [split; [intros _ [H _]; discriminate | reflexivity]|].
    split; [discriminate|]. split; [reflexivity | discriminate].
Qed.

End MotionQuery.

(** An edge seen at time 10 and polled at 10.1, 10.3 and 10.3 again with
    the window of 0.2 s: not yet, then once, then no more. *)
Example poll_after_one_edge :
  let c := Client.set_last_motion_time 10
             (Client.set_motion_detected true Client.fresh) in
  let r1 := Client.get_motion Client.SETTINGS (101 # 10) c in
  let r2 := Client.get_motion Client.SETTINGS (103 # 10) (snd r1) in
  let r3 := Client.get_motion Client.SETTINGS (103 # 10) (snd r2) in
  (fst r1, fst r2, fst r3) = (Ret false, Ret true, Ret false).
Proof. reflexivity. Qed.

(** ** The client: the frame decoder *)

Section Decoder.

Import Client.

Variable loads : string -> loaded.

Lemma on_message_dict now d fr :
  on_message now (VDict d) fr = (Ret tt, decoded now d fr).
Proof.
  unfold on_message, decoded, mark_motion, dict_get, field. run.
  destruct (eq_str _ "pir_state"); simpl.
  - destruct (eq_int _ 1 && eq_int (previous_state fr) 0); reflexivity.
  - destruct (eq_str _ "welcome"); reflexivity.
Qed.

Lemma on_message_not_dict now m fr :
  is_dict m = false -> on_message now m fr = (Raise AttributeError, fr).
Proof. destruct m; simpl; intros H; try discriminate; reflexivity. Qed.

Lemma on_line_blank now line fr :
  strip_nonempty line = false -> on_line loads now line fr = (Ret tt, fr).
Proof. unfold on_line. now intros ->. Qed.

Lemma on_line_unparsed now line fr :
  loads line = NotLoaded NotJSON -> on_line loads now line fr = (Ret tt, fr).
Proof.
  intros H. unfold on_line, json_loads. rewrite H.
  destruct (strip_nonempty line); reflexivity.
Qed.

(** A line on which [json.loads] raises: [JSONDecodeError] is caught at
    once, anything else leaves the inner [try]. *)
Lemma on_line_raised now line e fr :
  strip_nonempty line = true -> loads line = NotLoaded e ->
  on_line loads now line fr =
  (match e with
   | NotJSON => Ret tt
   | _ => Raise (raised_by_loads e)
   end, fr).
Proof.
  intros Hs H. unfold on_line, json_loads. rewrite Hs, H.
  destruct e; reflexivity.
Qed.

Lemma on_line_parsed now line m fr :
  strip_nonempty line = true -> loads line = Loaded m ->
  on_line loads now line fr = on_message now m fr.
Proof.
  intros Hs H. unfold on_line, json_loads. rewrite Hs, H.
  destruct m; try reflexivity.
  unfold try_except, bind, ret. now rewrite on_message_dict.
Qed.

Lemma decoded_buffer now d fr : buffer (decoded now d fr) = buffer fr.
Proof.
  unfold decoded.
  destruct (eq_str _ "pir_state"); simpl.
  - destruct (eq_int _ 1 && eq_int (previous_state fr) 0); reflexivity.
  - destruct (eq_str _ "welcome"); reflexivity.
Qed.

Lemma on_line_buffer now line fr :
  buffer (snd (on_line loads now line fr)) = buffer fr.
Proof.
  destruct (strip_nonempty line) eqn:Hs; [|now rewrite on_line_blank].
  destruct (loads line) as [m|e] eqn:Hl;
    [|now rewrite (@on_line_raised now line e fr Hs Hl)].
  rewrite (on_line_parsed now fr Hs Hl).
  destruct m; try reflexivity.
  rewrite on_message_dict. apply decoded_buffer.
Qed.

Lemma split_newline_some s line rest :
  split_newline s = Some (line, rest) ->
  s = (line ++ nl ++ rest)%string /\ split_newline line = None.
Proof.
  revert line rest. induction s as [|c s IH]; intros line rest H.
  - discriminate.
  - simpl in H. destruct (Ascii.eqb c newline) eqn:E.
    + apply Ascii.eqb_eq in E. inversion H; subst. split; reflexivity.
    + destruct (split_newline s) as [[l r]|]; [|discriminate].
      inversion H; subst. destruct (IH l rest eq_refl) as [-> Hl].
      split; [reflexivity|]. simpl. now rewrite E, Hl.
Qed.

Lemma split_newline_app line rest :
  split_newline line = None ->
  split_newline (line ++ nl ++ rest) = Some (line, rest).
Proof.
  induction line as [|c line IH]; intros H.
  - reflexivity.
  - simpl in *. destruct (Ascii.eqb c newline); [discriminate|].
    destruct (split_newline line) as [[? ?]|]; [discriminate|].
    now rewrite IH.
Qed.

Lemma length_app_string (a b : string) :
  String.length (a ++ b) = (String.length a + String.length b)%nat.
Proof. induction a as [|c a IH]; simpl; [reflexivity | now rewrite IH]. Qed.

Lemma split_newline_shorter s line rest :
  split_newline s = Some (line, rest) ->
  (String.length rest < String.length s)%nat.
Proof.
  intros H. apply split_newline_some in H. destruct H as [-> _].
  rewrite !length_app_string. simpl. lia.
Qed.

Lemma drain_fuel now : forall fuel fuel' fr,
  (String.length (buffer fr) <= fuel)%nat ->
  (String.length (buffer fr) <= fuel')%nat ->
  drain loads now fuel fr = drain loads now fuel' fr.
Proof.
  induction fuel as [|fuel IH]; intros fuel' fr H H'.
  - destruct (buffer fr) eqn:E; [|simpl in H; lia].
    destruct fuel'; simpl; [reflexivity|]. run. now rewrite E.
  - destruct fuel' as [|fuel'].
    + destruct (buffer fr) eqn:E; [|simpl in H'; lia].
      simpl. run. now rewrite E.
    + simpl. run.
      destruct (split_newline (buffer fr)) as [[line rest]|] eqn:E;
        [|reflexivity].
      apply split_newline_shorter in E.
      pose proof (on_line_buffer now line (set_buffer rest fr)) as Hb.
      destruct (on_line loads now line (set_buffer rest fr)) as [[[]|e] fr1];
        [|reflexivity].
      simpl in Hb. apply IH; rewrite Hb; lia.
Qed.

(** The loop as the source writes it: while the buffer holds a newline,
    cut the first line off, handle it, and go round again. *)
Lemma drain_all_unfold now fr :
  drain_all loads now fr =
  match split_newline (buffer fr) with
  | None => (Ret tt, fr)
  | Some (line, rest) =>
      (on_line loads now line ;; drain_all loads now) (set_buffer rest fr)
  end.
Proof.
  unfold drain_all at 1.
  destruct (split_newline (buffer fr)) as [[line rest]|] eqn:E.
  - pose proof (split_newline_shorter _ E) as Hlt.
    destruct (String.length (buffer fr)) as [|n] eqn:En; [lia|].
    simpl. run. rewrite E.
    pose proof (on_line_buffer now line (set_buffer rest fr)) as Hb.
    destruct (on_line loads now line (set_buffer rest fr)) as [[[]|e] fr1];
      [|reflexivity].
    simpl in Hb. unfold drain_all. apply drain_fuel; rewrite Hb; lia.
  - destruct (String.length (buffer fr)); simpl; [reflexivity|].
    run. now rewrite E.
Qed.

Lemma append_assoc (a b c : string) :
  ((a ++ b) ++ c = a ++ (b ++ c))%string.
Proof. induction a as [|x a IH]; simpl; [reflexivity | now rewrite IH]. Qed.

Lemma append_empty_r (a : string) : (a ++ EmptyString)%string = a.
Proof. induction a as [|x a IH]; simpl; [reflexivity | now rewrite IH]. Qed.

Lemma decoded_set_buffer now d b fr :
  decoded now d (set_buffer b fr) = set_buffer b (decoded now d fr).
Proof.
  unfold decoded.
  destruct (eq_str _ "pir_state"); simpl.
  - destruct (eq_int _ 1 && eq_int (previous_state fr) 0); reflexivity.
  - destruct (eq_str _ "welcome"); reflexivity.
Qed.

Lemma on_line_set_buffer now line b fr :
  on_line loads now line (set_buffer b fr) =
  (fst (on_line loads now line fr),
   set_buffer b (snd (on_line loads now line fr))).
Proof.
  destruct (strip_nonempty line) eqn:Hs; [|now rewrite !on_line_blank].
  destruct (loads line) as [m|e] eqn:Hl;
    [|now rewrite !(@on_line_raised now line e _ Hs Hl)].
  rewrite !(on_line_parsed now _ Hs Hl).
  destruct m; try reflexivity.
  rewrite !on_message_dict. simpl. now rewrite decoded_set_buffer.
Qed.

Lemma buffer_set_buffer b fr : buffer (set_buffer b fr) = b.
Proof. reflexivity. Qed.

Lemma set_buffer_twice a b fr : set_buffer a (set_buffer b fr) = set_buffer a fr.
Proof. reflexivity. Qed.

(** A line that starts the buffer and on which [json.loads] raises
    [JSONDecodeError] is as good as absent. *)
Lemma drain_all_skip now bad rest fr :
  split_newline bad = None -> loads bad = NotLoaded NotJSON ->
  drain_all loads now (set_buffer (bad ++ nl ++ rest) fr) =
  drain_all loads now (set_buffer rest fr).
Proof.
  intros Hn Hl. rewrite drain_all_unfold, buffer_set_buffer.
  rewrite (@split_newline_app bad rest Hn). unfold bind.
  rewrite set_buffer_twice, on_line_unparsed by assumption. reflexivity.
Qed.

Lemma alike_refl {A} (r : outcome A * frame) : alike r r.
Proof. unfold alike. destruct (fst r); auto. Qed.

(** The same behind any number of complete lines. *)
Lemma drain_all_skip_behind now bad rest : forall ls fr,
  Forall (fun l => split_newline l = None) ls ->
  split_newline bad = None -> loads bad = NotLoaded NotJSON ->
  alike (drain_all loads now (set_buffer (frames_text ls ++ bad ++ nl ++ rest) fr))
        (drain_all loads now (set_buffer (frames_text ls ++ rest) fr)).
Proof.
  induction ls as [|l ls IH]; intros fr Hls Hn Hl.
  - cbn [frames_text append]. rewrite drain_all_skip by assumption.
    apply alike_refl.
  - inversion Hls as [|? ? Hl0 Hls']; subst.
    rewrite (drain_all_unfold now (set_buffer (frames_text (l :: ls) ++ rest) fr)).
    rewrite drain_all_unfold, !buffer_set_buffer. cbn [frames_text].
    rewrite !append_assoc, !(@split_newline_app l _ Hl0).
    unfold bind. rewrite !set_buffer_twice, !on_line_set_buffer.
    destruct (on_line loads now l fr) as [[[]|e] fr1]; simpl.
    + now apply IH.
    + unfold alike. simpl. auto.
Qed.

Lemma receive_step_data now data fr :
  data <> EmptyString ->
  receive_step loads now (Ret data) fr =
  match drain_all loads now (set_buffer (buffer fr ++ data) fr) with
  | (Ret _, fr') => (Ret true, fr')
  | (Raise e, fr') =>
      match e with
      | socket_timeout => (Ret true, fr')
      | _ => (Ret false,
              on_self (set_connected false)
                      (on_self (emit (LogReceiveError e)) fr'))
      end
  end.
Proof.
  intros Hd. unfold receive_step, drain_all. run.
  destruct data as [|c data]; [congruence|]. simpl.
  destruct (drain loads now _ _) as [[[]|e] fr']; [reflexivity|].
  destruct e; reflexivity.
Qed.

Lemma receive_step_alike now data data' fr :
  data <> EmptyString -> data' <> EmptyString ->
  alike (drain_all loads now (set_buffer (buffer fr ++ data) fr))
        (drain_all loads now (set_buffer (buffer fr ++ data') fr)) ->
  fst (receive_step loads now (Ret data) fr) =
  fst (receive_step loads now (Ret data') fr) /\
  self (snd (receive_step loads now (Ret data) fr)) =
  self (snd (receive_step loads now (Ret data') fr)) /\
  previous_state (snd (receive_step loads now (Ret data) fr)) =
  previous_state (snd (receive_step loads now (Ret data') fr)).
Proof.
  intros Hd Hd' H. rewrite !receive_step_data by assumption.
  destruct (drain_all loads now (set_buffer (buffer fr ++ data) fr)) as [o f].
  destruct (drain_all loads now (set_buffer (buffer fr ++ data') fr)) as [o' f'].
  destruct H as (Ho & Hs & Hp & _). simpl in Ho, Hs, Hp. subst o'.
  destruct o as [[]|e]; simpl; [auto|].
  destruct e; simpl; rewrite ?Hs; auto.
Qed.

(** C8. A line on which [json.loads] raises [JSONDecodeError] changes
    nothing and raises nothing. With it in the buffer, behind any number
    of complete lines, the loop over the buffer ends as it ends without
    it, and so does a turn of the receive loop. In particular such a
    line followed by a line that parses to a record leaves the decoder
    exactly where the record alone leaves it. *)
Theorem malformed_frame_is_skipped now ls bad rest fr :
  Forall (fun l => split_newline l = None) ls ->
  split_newline bad = None ->
  loads bad = NotLoaded NotJSON ->
  on_line loads now bad fr = (Ret tt, fr) /\
  alike (drain loads now
                (String.length (frames_text ls ++ bad ++ nl ++ rest))
                (set_buffer (frames_text ls ++ bad ++ nl ++ rest) fr))
        (drain loads now
                (String.length (frames_text ls ++ rest))
                (set_buffer (frames_text ls ++ rest) fr)) /\
  (forall data data',
      data <> EmptyString -> data' <> EmptyString ->
      (buffer fr ++ data)%string = (frames_text ls ++ bad ++ nl ++ rest)%string ->
      (buffer fr ++ data')%string = (frames_text ls ++ rest)%string ->
      fst (receive_step loads now (Ret data) fr) =
      fst (receive_step loads now (Ret data') fr) /\
      self (snd (receive_step loads now (Ret data) fr)) =
      self (snd (receive_step loads now (Ret data') fr)) /\
      previous_state (snd (receive_step loads now (Ret data) fr)) =
      previous_state (snd (receive_step loads now (Ret data') fr))) /\
  (forall good d,
      split_newline good = None -> strip_nonempty good = true ->
      loads good = Loaded (VDict d) -> buffer fr = EmptyString ->
      receive_step loads now (Ret (bad ++ nl ++ good ++ nl)%string) fr =
        (Ret true, decoded now d fr) /\
      receive_step loads now (Ret (good ++ nl)%string) fr =
        (Ret true, decoded now d fr)).
Proof.
  intros Hls Hn Hl.
  split; [now apply on_line_unparsed|].
  split; [exact (drain_all_skip_behind now rest fr Hls Hn Hl)|].
  split.
  - intros data data' Hd Hd' E E'.
    apply receive_step_alike; try assumption. rewrite E, E'.
    exact (drain_all_skip_behind now rest fr Hls Hn Hl).
  - intros good d Hgn Hgs Hgl Hb.
    assert (Hgood : receive_step loads now (Ret (good ++ nl)%string) fr =
                    (Ret true, decoded now d fr)).
    { rewrite receive_step_data by (destruct good; discriminate).
      rewrite Hb. cbn [append].
      rewrite <- (append_empty_r (good ++ nl)%string), append_assoc.
      rewrite drain_all_unfold, buffer_set_buffer.
      rewrite (@split_newline_app good _ Hgn). unfold bind.
      rewrite set_buffer_twice, (on_line_parsed now _ Hgs Hgl), on_message_dict.
      rewrite drain_all_unfold.
      rewrite decoded_buffer, buffer_set_buffer. cbn [split_newline].
      destruct fr as [c b p]. simpl in Hb. subst b. reflexivity. }
    split; [|exact Hgood].
    rewrite <- Hgood.
    rewrite !receive_step_data by (try destruct bad; try destruct good; discriminate).
    rewrite Hb. cbn [append].
    now rewrite (drain_all_skip now (good ++ nl)%string fr Hn Hl).
Qed.

Lemma decode_all_set_buffer now b ds : forall fr,
  decode_all now ds (set_buffer b fr) = set_buffer b (decode_all now ds fr).
Proof.
  induction ds as [|d ds IH]; intros fr; [reflexivity|].
  simpl. now rewrite decoded_set_buffer, IH.
Qed.

Lemma drain_all_frames now tail : forall fs fr,
  Forall (frame_of loads) fs -> split_newline tail = None ->
  drain_all loads now (set_buffer (frames_text (map fst fs) ++ tail) fr) =
  (Ret tt, set_buffer tail (decode_all now (map snd fs) fr)).
Proof.
  induction fs as [|[line d] fs IH]; intros fr Hfs Ht.
  - cbn [map frames_text append decode_all fold_left].
    rewrite drain_all_unfold, buffer_set_buffer. now rewrite Ht.
  - inversion Hfs as [|? ? (Hn & Hs & Hl) Hfs']; subst. simpl in Hn, Hs, Hl.
    rewrite drain_all_unfold, buffer_set_buffer. cbn [map fst frames_text].
    rewrite !append_assoc, (@split_newline_app line _ Hn).
    unfold bind.
    rewrite set_buffer_twice, (on_line_parsed now _ Hs Hl), on_message_dict.
    rewrite decoded_set_buffer, (IH (decoded now d fr) Hfs' Ht).
    reflexivity.
Qed.

Lemma receive_step_frames now tail fs fr :
  Forall (frame_of loads) fs -> split_newline tail = None ->
  buffer fr = EmptyString ->
  (frames_text (map fst fs) ++ tail)%string <> EmptyString ->
  receive_step loads now (Ret (frames_text (map fst fs) ++ tail)%string) fr =
  (Ret true, set_buffer tail (decode_all now (map snd fs) fr)).
Proof.
  intros Hfs Ht Hb Hne.
  rewrite receive_step_data by assumption. rewrite Hb. cbn [append].
  now rewrite drain_all_frames.
Qed.

Lemma decoded_state now d v fr :
  carries_state d v ->
  decoded now d fr =
  set_previous_state (VInt v)
    (if eq_int (previous_state fr) 0 && Z.eqb v 1
     then mark_motion now (field d "motion_count" (VInt 0)) fr
     else fr).
Proof.
  intros [Ht Hv]. unfold decoded, field. rewrite Ht, Hv. simpl.
  rewrite andb_comm. reflexivity.
Qed.

Lemma motions_app a b : motions (a ++ b) = (motions a + motions b)%nat.
Proof. unfold motions. now rewrite filter_app, length_app. Qed.

Lemma decode_all_states now : forall ds vs fr,
  Forall2 carries_state ds vs ->
  let final := decode_all now ds fr in
  previous_state final = last (map VInt vs) (previous_state fr) /\
  motions (trace (self final)) =
    (motions (trace (self fr)) + edges (previous_state fr) vs)%nat /\
  motion_detected (self final) =
    motion_detected (self fr) || negb (Nat.eqb (edges (previous_state fr) vs) 0) /\
  last_motion_time (self final) =
    (if Nat.eqb (edges (previous_state fr) vs) 0
     then last_motion_time (self fr) else now) /\
  connected (self final) = connected (self fr) /\
  running (self final) = running (self fr) /\
  buffer final = buffer fr.
Proof.
  induction ds as [|d ds IH]; intros vs fr H; inversion H as [|? v ? vs' Hd Hrest]; subst.
  - simpl. rewrite orb_false_r, Nat.add_0_r. repeat split.
  - cbn [decode_all fold_left]. fold (decode_all now ds (decoded now d fr)).
    destruct (IH vs' (decoded now d fr) Hrest) as (Hp & Hm & Hf & Ht & Hc & Hr & Hb).
    rewrite (decoded_state now fr Hd) in *.
    cbn [map]. rewrite last_cons. cbn [edges].
    cbn [previous_state set_previous_state] in *.
    rewrite Hp, Hm, Hf, Ht, Hc, Hr, Hb. clear Hp Hm Hf Ht Hc Hr Hb.
    destruct (eq_int (previous_state fr) 0 && Z.eqb v 1); simpl.
    + rewrite motions_app.
      change (motions [LogMotion (field d "motion_count" (VInt 0))]) with 1%nat.
      split; [reflexivity|]. split; [lia|].
      split; [now rewrite orb_true_r|].
      split; [destruct (Nat.eqb (edges (VInt v) vs') 0); reflexivity|].
      repeat split.
    + repeat split.
Qed.

(** C4. For state records arriving as frames: each record sets
    [previous_state] to its state and marks a motion, flag and time
    together, exactly when its state is 1 and the previous state equals 0;
    over the whole sequence the decoder reports as many motions as there
    are records with state 1 after a previous state 0, holds the state of
    the last record, and has the flag set if it was set before or a motion
    was marked. *)
Theorem state_records_mark_rising_edges now fs vs tail fr :
  Forall (frame_of loads) fs ->
  Forall2 carries_state (map snd fs) vs ->
  split_newline tail = None ->
  (forall d v t fr0,
      In (d, v) (combine (map snd fs) vs) ->
      on_message t (VDict d) fr0 =
      (Ret tt,
       set_previous_state (VInt v)
         (if eq_int (previous_state fr0) 0 && Z.eqb v 1
          then on_self (fun c => emit (LogMotion (field d "motion_count" (VInt 0)))
                                   (set_last_motion_time t
                                      (set_motion_detected true c))) fr0
          else fr0))) /\
  let text := (frames_text (map fst fs) ++ tail)%string in
  let r := drain loads now (String.length text) (set_buffer text fr) in
  fst r = Ret tt /\
  buffer (snd r) = tail /\
  previous_state (snd r) = last (map VInt vs) (previous_state fr) /\
  motions (trace (self (snd r))) =
    (motions (trace (self fr)) + edges (previous_state fr) vs)%nat /\
  motion_detected (self (snd r)) =
    motion_detected (self fr) || negb (Nat.eqb (edges (previous_state fr) vs) 0) /\
  last_motion_time (self (snd r)) =
    (if Nat.eqb (edges (previous_state fr) vs) 0
     then last_motion_time (self fr) else now).
Proof.
  intros Hfs Hvs Ht. split.
  - intros d v t fr0 Hin.
    assert (Hd : carries_state d v).
    { clear -Hvs Hin. induction Hvs as [|d' v' ds' vs' H0 _ IH]; simpl in Hin.
      - contradiction.
      - destruct Hin as [E | Hin]; [inversion E; now subst | now apply IH]. }
    rewrite on_message_dict, (decoded_state t fr0 Hd). reflexivity.
  - intros text r.
    assert (Hr : r = (Ret tt, set_buffer tail (decode_all now (map snd fs) fr))).
    { unfold r, text. exact (@drain_all_frames now tail fs fr Hfs Ht). }
    rewrite Hr. cbn [fst snd].
    destruct (decode_all_states now fr Hvs) as (Hp & Hm & Hf & Hl & _).
    cbn [set_buffer buffer self previous_state].
    repeat split; assumption.
Qed.

(** C5. A welcome record, whatever its [pir_state], puts that state (0
    when the record has none) into [previous_state], writes its message
    to the log and changes nothing else: the flag, the time and the
    motion reports are as they were. When that state is not 0, a state
    record with state 1 that follows marks no motion: flag, time and
    motion reports are still as they were. *)
Theorem welcome_only_seeds_previous_state now lw w lr r fr :
  lookup "type" w = Some (VStr "welcome") ->
  let seeded :=
    set_previous_state (field w "pir_state" (VInt 0))
      (on_self (emit (LogWelcome (field w "message" VNone))) fr) in
  on_message now (VDict w) fr = (Ret tt, seeded) /\
  motion_detected (self seeded) = motion_detected (self fr) /\
  last_motion_time (self seeded) = last_motion_time (self fr) /\
  connected (self seeded) = connected (self fr) /\
  running (self seeded) = running (self fr) /\
  buffer seeded = buffer fr /\
  motions (trace (self seeded)) = motions (trace (self fr)) /\
  ((frame_of loads) (lw, w) -> (frame_of loads) (lr, r) ->
   eq_int (field w "pir_state" (VInt 0)) 0 = false ->
   carries_state r 1 ->
   buffer fr = EmptyString ->
   let step :=
     receive_step loads now (Ret (lw ++ nl ++ lr ++ nl)%string) fr in
   fst step = Ret true /\
   snd step =
     set_previous_state (VInt 1)
       (on_self (emit (LogWelcome (field w "message" VNone))) fr) /\
   motion_detected (self (snd step)) = motion_detected (self fr) /\
   last_motion_time (self (snd step)) = last_motion_time (self fr) /\
   motions (trace (self (snd step))) = motions (trace (self fr))).
Proof.
  intros Hty seeded.
  assert (Hdw : decoded now w fr = seeded).
  { unfold decoded, field. rewrite Hty. reflexivity. }
  assert (Hm : motions (trace (self seeded)) = motions (trace (self fr))).
  { unfold seeded. cbn [self on_self set_previous_state trace emit].
    rewrite motions_app.
    change (motions [LogWelcome (field w "message" VNone)]) with 0%nat. lia. }
  split; [now rewrite on_message_dict, Hdw|].
  do 5 (split; [reflexivity|]).
  split; [exact Hm|].
  intros Hw Hr Hnz Hst Hb step.
  assert (Hstep : step =
    (Ret true,
     set_previous_state (VInt 1)
       (on_self (emit (LogWelcome (field w "message" VNone))) fr))).
  { unfold step.
    pose proof (@receive_step_frames now EmptyString [(lw, w); (lr, r)] fr) as H.
    cbn [map fst snd frames_text] in H.
    rewrite ?append_assoc, ?append_empty_r in H.
    rewrite H; [| exact (Forall_cons _ Hw (Forall_cons _ Hr (Forall_nil _)))
                | reflexivity | assumption | destruct lw; discriminate].
    cbn [decode_all fold_left]. rewrite Hdw, (decoded_state now _ Hst).
    unfold seeded. cbn [previous_state set_previous_state].
    rewrite Hnz. cbn [andb].
    destruct fr as [c b p]. simpl in Hb. subst b. reflexivity. }
  rewrite Hstep. cbn [fst snd].
  do 4 (split; [reflexivity|]). exact Hm.
Qed.

(** C10. A record of type [pir_state] without a [state] field is read as
    state 0: it sets [previous_state] to 0 and touches nothing else,
    whatever the previous state was. A record with state 1 that follows
    therefore marks a motion. *)
Theorem missing_state_reads_as_zero now lm m lr r fr :
  (frame_of loads) (lm, m) -> (frame_of loads) (lr, r) ->
  lookup "type" m = Some (VStr "pir_state") ->
  lookup "state" m = None ->
  carries_state r 1 ->
  buffer fr = EmptyString ->
  on_message now (VDict m) fr = (Ret tt, set_previous_state (VInt 0) fr) /\
  on_message now (VDict r) (set_previous_state (VInt 0) fr) =
    (Ret tt,
     set_previous_state (VInt 1)
       (mark_motion now (field r "motion_count" (VInt 0)) fr)) /\
  let step := receive_step loads now (Ret (lm ++ nl ++ lr ++ nl)%string) fr in
  fst step = Ret true /\
  previous_state (snd step) = VInt 1 /\
  motion_detected (self (snd step)) = true /\
  last_motion_time (self (snd step)) = now /\
  trace (self (snd step)) =
    trace (self fr) ++ [LogMotion (field r "motion_count" (VInt 0))].
Proof.
  intros Hm Hr Hty Hno Hst Hb.
  assert (Hdm : decoded now m fr = set_previous_state (VInt 0) fr).
  { unfold decoded, field. rewrite Hty. simpl. rewrite Hno. reflexivity. }
  assert (Hdr : decoded now r (set_previous_state (VInt 0) fr) =
                set_previous_state (VInt 1)
                  (mark_motion now (field r "motion_count" (VInt 0)) fr)).
  { rewrite (decoded_state now _ Hst). reflexivity. }
  split; [now rewrite on_message_dict, Hdm|].
  split; [now rewrite on_message_dict, Hdr|].
  intros step.
  assert (Hstep : step =
    (Ret true,
     set_previous_state (VInt 1)
       (mark_motion now (field r "motion_count" (VInt 0)) fr))).
  { unfold step.
    pose proof (@receive_step_frames now EmptyString [(lm, m); (lr, r)] fr) as H.
    cbn [map fst snd frames_text] in H.
    rewrite ?append_assoc, ?append_empty_r in H.
    rewrite H; [| exact (Forall_cons _ Hm (Forall_cons _ Hr (Forall_nil _)))
                | reflexivity | assumption | destruct lm; discriminate].
    cbn [decode_all fold_left]. rewrite Hdm, Hdr.
    destruct fr as [c b p]. simpl in Hb. subst b. reflexivity. }
  rewrite Hstep. cbn [fst snd]. repeat split.
Qed.

(** A line that parses to something other than a [dict] is not skipped:
    [message.get] raises, the outer handler takes it, and the link goes
    down. *)
Remark non_object_frame_disconnects now line m fr :
  split_newline line = None -> strip_nonempty line = true ->
  loads line = Loaded m -> is_dict m = false ->
  buffer fr = EmptyString ->
  receive_step loads now (Ret (line ++ nl)%string) fr =
  (Ret false,
   on_self (set_connected false)
           (on_self (emit (LogReceiveError AttributeError)) fr)).
Proof.
  intros Hn Hs Hl Hd Hb.
  rewrite receive_step_data by (destruct line; discriminate).
  rewrite Hb. cbn [append].
  rewrite <- (append_empty_r (line ++ nl)%string), append_assoc.
  rewrite drain_all_unfold, buffer_set_buffer.
  rewrite (@split_newline_app line _ Hn). unfold bind.
  rewrite set_buffer_twice, (on_line_parsed now _ Hs Hl).
  rewrite (@on_message_not_dict now m _ Hd).
  destruct fr as [c b p]. simpl in Hb. subst b. reflexivity.
Qed.

End Decoder.

(** ** The client: discovery *)

Section Discovery.

Import Client.

Variable cfg : settings.
Variable connect_ex : string -> Z -> outcome Z.

Lemma scan_events_cons ip rest :
  (scan_events cfg connect_ex) (ip :: rest) =
  Probe ip (port cfg) (5 # 100)
  :: (if (accepts cfg connect_ex) ip then [LogFound ip; ProbeClosed ip]
      else ProbeClosed ip :: (scan_events cfg connect_ex) rest).
Proof. reflexivity. Qed.

Lemma scan_run network_prefix : forall range c,
  scan cfg connect_ex network_prefix range c =
  (Ret (find (accepts cfg connect_ex) (hosts_of network_prefix range)),
   add_events ((scan_events cfg connect_ex) (hosts_of network_prefix range)) c).
Proof.
  induction range as [|i range IH]; intros c.
  - reflexivity.
  - cbn [scan hosts_of map find]. fold (hosts_of network_prefix range).
    rewrite scan_events_cons. unfold accepts at 1 3. run.
    destruct (connect_ex (network_prefix ++ str i) (port cfg)) as [z|e]; simpl.
    + destruct (Z.eqb z 0) eqn:E.
      * apply Z.eqb_eq in E. subst z. simpl.
        unfold add_events, emit. simpl. rewrite <- !app_assoc. reflexivity.
      * assert (Hz : match z with 0%Z => true | _ => false end = false)
          by (destruct z; [discriminate | reflexivity | reflexivity]).
        rewrite Hz. simpl. rewrite IH.
        unfold add_events, emit. simpl. rewrite <- !app_assoc. reflexivity.
    + rewrite IH. unfold add_events, emit. simpl.
      rewrite <- !app_assoc. reflexivity.
Qed.


Lemma probed_app a b : probed (a ++ b) = probed a ++ probed b.
Proof.
  induction a as [|e a IH]; [reflexivity|].
  destruct e; simpl; now rewrite IH.
Qed.




Lemma find_raspberry_pi_routed ip c :
  find_raspberry_pi cfg (Ret ip) connect_ex c =
  scan cfg connect_ex (network_prefix_of ip) (seq 1 254)
       (emit (LogScanning (network_prefix_of ip)) (emit LogSearching c)).
Proof.
  cbv beta iota zeta delta [find_raspberry_pi bind try_except modify
                            Client.answer ret].
  reflexivity.
Qed.



End Discovery.


(** A scan from 192.168.1.23 with the server at 192.168.1.42: found at the
    42nd probe. *)
Example scan_finds_the_server :
  let connect_ex ip (_ : Z) :=
    if String.eqb ip "192.168.1.42" then Ret 0%Z else Ret 111%Z in
  let r := Client.find_raspberry_pi Client.SETTINGS (Ret "192.168.1.23"%string)
             connect_ex Client.fresh in
  fst r = Ret (Some "192.168.1.42"%string) /\
  length (probed (Client.trace (snd r))) = 42%nat.
Proof. vm_compute. split; reflexivity. Qed.

(** ** Runs on concrete frames *)

Lemma state_line_frame v : bit v -> frame_of Json.loads (parsed (state_line v)).
Proof. intros [-> | ->]; repeat split. Defined.

Lemma state_line_carries v : bit v -> carries_state (fields_of (state_line v)) v.
Proof. intros [-> | ->]; split; reflexivity. Defined.

(** C8, witness: the text not-json, then a state record. *)
Lemma malformed_frame_is_skipped_witness :
  let fr := Client.enter Client.fresh in
  let step := Client.receive_step Json.loads 10
                (Ret ("not-json" ++ nl ++ state_line 1 ++ nl)%string) fr in
  Json.loads "not-json" = NotLoaded NotJSON /\
  step = Client.receive_step Json.loads 10 (Ret (state_line 1 ++ nl)%string) fr /\
  Client.motion_detected (Client.self (snd step)) = true /\
  Client.previous_state (snd step) = VInt 1.
Proof.
  intros fr step.
  destruct (@malformed_frame_is_skipped Json.loads 10 [] "not-json" ""
              fr (Forall_nil _) eq_refl eq_refl) as (_ & _ & _ & H).
  destruct (H (state_line 1) (fields_of (state_line 1))
              eq_refl eq_refl eq_refl eq_refl) as [H1 H2].
  split; [reflexivity|].
  unfold step. rewrite H1, H2. repeat split.
Defined.

(** C8, counterexample: the frame 123, then a state record with state 1.
    The frame is JSON but no record: [message.get] raises
    [AttributeError], which the inner [except json.JSONDecodeError] lets
    pass; the outer handler logs it, clears [connected] and leaves the
    loop. The record behind the frame is never decoded: no motion is
    marked and [previous_state] stays 0, where the record alone marks a
    motion and leaves 1. *)
Lemma non_record_frame_is_not_skipped :
  let fr := Client.enter Client.fresh in
  let step := Client.receive_step Json.loads 10
                (Ret ("123" ++ nl ++ state_line 1 ++ nl)%string) fr in
  let alone := Client.receive_step Json.loads 10
                 (Ret (state_line 1 ++ nl)%string) fr in
  Json.loads "123" = Loaded (VInt 123) /\
  fst step = Ret false /\
  Client.connected (Client.self (snd step)) = false /\
  Client.trace (Client.self (snd step)) =
    [Client.LogReceiveError AttributeError] /\
  Client.motion_detected (Client.self (snd step)) = false /\
  Client.previous_state (snd step) = VInt 0 /\
  fst alone = Ret true /\
  Client.connected (Client.self (snd alone)) = true /\
  Client.motion_detected (Client.self (snd alone)) = true /\
  Client.previous_state (snd alone) = VInt 1 /\
  ~ unparsed_frame_is_skipped Json.loads.
Proof.
  intros fr step alone.
  do 10 (split; [vm_compute; reflexivity|]).
  intros H.
  assert (Hg : frame_of Json.loads (parsed (state_line 1))) by (repeat split).
  assert (Hb : forall d', Json.loads "123" <> Loaded (VDict d'))
    by (intros d'; vm_compute; discriminate).
  destruct (H 10 "123"%string (state_line 1) (fields_of (state_line 1)) fr
              eq_refl Hb Hg eq_refl) as (H1 & _).
  vm_compute in H1. discriminate.
Qed.

(** C4, witness: six state records with the states 0,0,1,1,0,1 make two
    motion reports. *)
Lemma state_records_mark_rising_edges_witness :
  let vs := [0; 0; 1; 1; 0; 1]%Z in
  let fs := map (fun v => parsed (state_line v)) vs in
  let text := (frames_text (map fst fs) ++ "")%string in
  let r := Client.drain Json.loads 10 (String.length text)
             (Client.set_buffer text (Client.enter Client.fresh)) in
  fst r = Ret tt /\
  motions (Client.trace (Client.self (snd r))) = 2%nat /\
  Client.previous_state (snd r) = VInt 1.
Proof.
  intros vs fs text r.
  assert (Hbits : Forall bit vs).
  { repeat (apply Forall_cons; [unfold bit; auto|]). apply Forall_nil. }
  assert (Hfs : Forall (frame_of Json.loads) fs).
  { unfold fs. clear -Hbits. induction Hbits as [|v l Hv _ IH]; simpl.
    - constructor.
    - constructor; [now apply state_line_frame | exact IH]. }
  assert (Hvs : Forall2 carries_state (map snd fs) vs).
  { unfold fs. clear -Hbits. induction Hbits as [|v l Hv _ IH]; simpl.
    - constructor.
    - constructor; [now apply state_line_carries | exact IH]. }
  destruct (@state_records_mark_rising_edges Json.loads 10 fs vs ""
              (Client.enter Client.fresh) Hfs Hvs eq_refl)
    as (_ & H1 & _ & H3 & H4 & _).
  split; [exact H1|]. split; [exact H4 | exact H3].
Defined.

(** C5, witness: a welcome record with state 1, then a state record with
    state 1. *)
Lemma welcome_only_seeds_previous_state_witness :
  let fr := Client.enter Client.fresh in
  let hello := Client.on_message 10 (VDict (fields_of welcome_line)) fr in
  let step := Client.receive_step Json.loads 10
                (Ret (welcome_line ++ nl ++ state_line 1 ++ nl)%string) fr in
  fst hello = Ret tt /\
  Client.previous_state (snd hello) = VInt 1 /\
  Client.motion_detected (Client.self (snd hello)) = false /\
  fst step = Ret true /\
  Client.previous_state (snd step) = VInt 1 /\
  Client.motion_detected (Client.self (snd step)) = false /\
  motions (Client.trace (Client.self (snd step))) = 0%nat.
Proof.
  intros fr hello step.
  assert (Hw : frame_of Json.loads (parsed welcome_line)) by (repeat split).
  assert (Hr : frame_of Json.loads (parsed (state_line 1))) by (repeat split).
  assert (Hs : carries_state (fields_of (state_line 1)) 1) by (split; reflexivity).
  destruct (@welcome_only_seeds_previous_state Json.loads 10
              welcome_line (fields_of welcome_line)
              (state_line 1) (fields_of (state_line 1)) fr eq_refl)
    as (H0 & _ & _ & _ & _ & _ & _ & H).
  destruct (H Hw Hr eq_refl Hs eq_refl) as (H1 & H2 & _).
  unfold hello. rewrite H0.
  do 3 (split; [reflexivity|]).
  split; [exact H1|]. unfold step. rewrite H2. repeat split.
Defined.

(** The welcome record of an idle sensor seeds 0 and marks nothing, from
    whatever state the decoder was in; the state record with state 1
    that follows is then a rising edge. *)
Example idle_welcome_seeds_zero :
  let fr := Client.set_previous_state (VInt 1) (Client.enter Client.fresh) in
  let hello := Client.on_message 10 (VDict (fields_of idle_welcome_line)) fr in
  let step := Client.receive_step Json.loads 10
                (Ret (idle_welcome_line ++ nl ++ state_line 1 ++ nl)%string)
                fr in
  fst hello = Ret tt /\
  Client.previous_state (snd hello) = VInt 0 /\
  Client.motion_detected (Client.self (snd hello)) = false /\
  motions (Client.trace (Client.self (snd hello))) = 0%nat /\
  fst step = Ret true /\
  Client.motion_detected (Client.self (snd step)) = true /\
  motions (Client.trace (Client.self (snd step))) = 1%nat.
Proof. vm_compute. repeat split. Qed.

(** C10, witness: previous state 1, a record without state, then a
    record with state 1. *)
Lemma missing_state_reads_as_zero_witness :
  let fr := Client.set_previous_state (VInt 1) (Client.enter Client.fresh) in
  let step := Client.receive_step Json.loads 10
                (Ret (stateless_line ++ nl ++ state_line 1 ++ nl)%string) fr in
  Client.previous_state fr = VInt 1 /\
  fst step = Ret true /\
  Client.motion_detected (Client.self (snd step)) = true /\
  Qeq_bool (Client.last_motion_time (Client.self (snd step))) 10 = true /\
  motions (Client.trace (Client.self (snd step))) = 1%nat.
Proof.
  intros fr step.
  assert (Hm : frame_of Json.loads (parsed stateless_line)) by (repeat split).
  assert (Hr : frame_of Json.loads (parsed (state_line 1))) by (repeat split).
  assert (Hs : carries_state (fields_of (state_line 1)) 1) by (split; reflexivity).
  destruct (@missing_state_reads_as_zero Json.loads 10
              stateless_line (fields_of stateless_line)
              (state_line 1) (fields_of (state_line 1)) fr
              Hm Hr eq_refl eq_refl Hs eq_refl)
    as (_ & _ & H1 & _ & H3 & H4 & H5).
  split; [reflexivity|]. split; [exact H1|]. split; [exact H3|].
  unfold step. rewrite H4, H5. split; reflexivity.
Defined.

(** The scenario of a tick that reports state 1 to a client whose previous
    state is 0: the flag goes up and the previous state becomes 1. *)
Example tick_with_state_one_sets_flag :
  let step := Client.receive_step Json.loads 10
                (Ret (state_line 1 ++ nl)%string) (Client.enter Client.fresh) in
  Client.motion_detected (Client.self (snd step)) = true /\
  Client.previous_state (snd step) = VInt 1 /\
  Client.trace (Client.self (snd step)) = [Client.LogMotion (VInt 1)].
Proof. vm_compute. repeat split. Qed.

(** Whole runs of the receive loop: data in two pieces that cut a frame in
    the middle, a timeout in between, the peer closing at the end. *)
Example receive_loop_run :
  let inputs :=
    [(1, Ret (welcome_line ++ nl ++ "{")%string);
     (2, Raise socket_timeout);
     (3, Ret (match state_line 1 with
              | String _ rest => (rest ++ nl)%string
              | EmptyString => EmptyString
              end));
     (4, Ret EmptyString);
     (5, Ret (state_line 0 ++ nl)%string)] in
  let r := Client.receive_loop Json.loads inputs
             (Client.set_previous_state (VInt 0) (Client.enter Client.fresh)) in
  fst r = Ret tt /\
  Client.connected (Client.self (snd r)) = false /\
  Client.previous_state (snd r) = VInt 1 /\
  motions (Client.trace (Client.self (snd r))) = 0%nat.
Proof. vm_compute. repeat split. Qed.

(** * Further properties *)

(** ** The server: composition of broadcasts, ticks and accepts *)

Section MoreServerProps.

Import Server.

Variable dumps : value -> string.

Lemma filter_failing_alive down (l : list client) :
  filter (failing down) (filter (fun c => negb (failing down c)) l) = [].
Proof.
  induction l as [|c l IH]; simpl; [reflexivity|].
  destruct (failing down c) eqn:E; simpl; [exact IH | now rewrite E].
Qed.

Lemma filter_alive_alive down (l : list client) :
  filter (fun c => negb (failing down c))
         (filter (fun c => negb (failing down c)) l) =
  filter (fun c => negb (failing down c)) l.
Proof.
  induction l as [|c l IH]; simpl; [reflexivity|].
  destruct (failing down c) eqn:E; simpl; [exact IH | now rewrite E, IH].
Qed.

Lemma attempts_alive down bytes (l : list client) :
  map (attempt down bytes) (filter (fun c => negb (failing down c)) l) =
  map (fun c => Sent (fst c) bytes) (filter (fun c => negb (failing down c)) l).
Proof.
  induction l as [|c l IH]; simpl; [reflexivity|].
  destruct (failing down c) eqn:E; simpl; [exact IH|].
  unfold attempt at 1. unfold failing in E. now rewrite E, IH.
Qed.

(** X1. A broadcast leaves a registry on which the next broadcast, the
    same writes failing, fails nowhere: it reaches every remaining
    connection, drops none and closes nothing. *)
Theorem broadcast_again_fails_nowhere down m1 m2 s :
  let s1 := snd (broadcast_to_clients down m1 s) in
  let r2 := broadcast_to_clients down m2 s1 in
  fst r2 = Ret tt /\
  clients (snd r2) = clients s1 /\
  trace (snd r2) = trace s1 ++ map (fun c => Sent (fst c) m2) (clients s1).
Proof.
  intros s1 r2. unfold r2, s1. rewrite !broadcast_run. cbn [fst snd].
  cbn [clients set_clients add_trace trace].
  rewrite filter_failing_alive, filter_alive_alive, attempts_alive.
  cbn [flat_map]. rewrite app_nil_r. repeat split.
Qed.

Lemma after_reading_pir_state i s :
  pir_state (after_reading i s) = reading i.
Proof. now destruct (after_reading_frame i s) as (_ & _ & _ & H). Qed.

Lemma monitor_tick_pir_state i s :
  pir_state (snd (monitor_tick dumps i s)) = reading i.
Proof.
  rewrite monitor_tick_run. cbn [snd].
  destruct (clients s); [apply after_reading_pir_state|].
  unfold set_send_counter, add_trace, set_clients. cbn [pir_state].
  apply after_reading_pir_state.
Qed.

Lemma monitor_sensor_pir_state inputs : forall s,
  pir_state (snd (monitor_sensor dumps inputs s)) =
  last (map reading inputs) (pir_state s).
Proof.
  induction inputs as [|i inputs IH]; intros s; [reflexivity|].
  rewrite monitor_sensor_cons, IH, monitor_tick_pir_state.
  cbn [map]. now rewrite last_cons.
Qed.

Lemma monitor_tick_idle i s :
  clients s = [] ->
  clients (snd (monitor_tick dumps i s)) = [] /\
  trace (snd (monitor_tick dumps i s)) = trace s /\
  send_counter (snd (monitor_tick dumps i s)) = send_counter s.
Proof.
  intros H. rewrite monitor_tick_run. cbn [snd]. rewrite H.
  destruct (after_reading_frame i s) as (Hc & Ht & Hs & _).
  now rewrite Hc, Ht, Hs, H.
Qed.

Lemma monitor_sensor_idle inputs : forall s,
  clients s = [] ->
  clients (snd (monitor_sensor dumps inputs s)) = [] /\
  trace (snd (monitor_sensor dumps inputs s)) = trace s /\
  send_counter (snd (monitor_sensor dumps inputs s)) = send_counter s.
Proof.
  induction inputs as [|i inputs IH]; intros s H; [now repeat split|].
  rewrite monitor_sensor_cons.
  destruct (monitor_tick_idle i s H) as (Hc & Ht & Hs).
  destruct (IH _ Hc) as (Hc' & Ht' & Hs').
  rewrite Hc', Ht', Hs', Ht, Hs. repeat split.
Qed.

(** X2. With no client registered the poll loop does no input or output
    at all, however long it runs: the trace, the registry and the count of
    transmissions stay as they are, while the sensor is still followed. *)
Theorem idle_server_only_follows_the_sensor inputs s :
  clients s = [] ->
  let s' := snd (monitor_sensor dumps inputs s) in
  trace s' = trace s /\
  clients s' = [] /\
  send_counter s' = send_counter s /\
  pir_state s' = last (map reading inputs) (pir_state s) /\
  previous_state s' = last (map reading inputs) (previous_state s).
Proof.
  intros H s'. unfold s'.
  destruct (monitor_sensor_idle inputs s H) as (Hc & Ht & Hs).
  split; [exact Ht|]. split; [exact Hc|]. split; [exact Hs|].
  split; [apply monitor_sensor_pir_state | apply monitor_sensor_previous_state].
Qed.

Lemma alive_all down (l : list client) :
  (forall c, In c l -> down (fst c) = false) ->
  filter (fun c => negb (failing down c)) l = l /\
  filter (failing down) l = [] /\
  forall bytes, map (attempt down bytes) l = map (fun c => Sent (fst c) bytes) l.
Proof.
  induction l as [|c l IH]; intros H; [repeat split|].
  destruct IH as (H1 & H2 & H3); [intros c' Hc'; apply H; now right|].
  assert (E : down (fst c) = false) by (apply H; now left).
  unfold failing, attempt in *. cbn [filter map].
  rewrite E. cbn [negb]. rewrite H1, H2.
  split; [reflexivity|]. split; [reflexivity|].
  intros bytes. cbn [map]. now rewrite H3.
Qed.

Lemma monitor_tick_healthy i s :
  clients s <> [] ->
  (forall c, In c (clients s) -> down i (fst c) = false) ->
  clients (snd (monitor_tick dumps i s)) = clients s /\
  send_counter (snd (monitor_tick dumps i s)) = (send_counter s + 1)%Z /\
  trace (snd (monitor_tick dumps i s)) =
    trace s ++ delivery dumps (clients s)
                 (state_record i (reading i) (after_reading i s)).
Proof.
  intros Hne Hok. rewrite monitor_tick_run. cbn [snd].
  destruct (after_reading_frame i s) as (_ & Ht & _).
  destruct (alive_all (down i) (clients s) Hok) as (H1 & H2 & H3).
  destruct (clients s) as [|c l] eqn:E; [congruence|].
  rewrite H1, H2, H3. cbn [flat_map]. rewrite app_nil_r.
  unfold set_send_counter, add_trace, set_clients, delivery.
  cbn [clients send_counter trace]. rewrite Ht. repeat split.
Qed.

(** X3. While every write succeeds, each tick sends its record to every
    registered connection: after a run the registry is unchanged, the
    count of transmissions has grown by the number of ticks, and the trace
    has grown by one serialisation and one write per connection for each
    tick, in tick order. *)
Theorem healthy_run_delivers_every_record inputs : forall s,
  clients s <> [] ->
  Forall (fun i => forall c, In c (clients s) -> down i (fst c) = false)
         inputs ->
  let s' := snd (monitor_sensor dumps inputs s) in
  clients s' = clients s /\
  send_counter s' = (send_counter s + Z.of_nat (length inputs))%Z /\
  trace s' =
    trace s ++ flat_map (delivery dumps (clients s)) (records dumps inputs s).
Proof.
  induction inputs as [|i inputs IH]; intros s Hne Hall.
  - cbn. rewrite app_nil_r, Z.add_0_r. repeat split.
  - inversion Hall as [|? ? Hi Hrest]; subst.
    destruct (monitor_tick_healthy i s Hne Hi) as (Hc & Hs & Ht).
    cbn zeta. rewrite monitor_sensor_cons.
    destruct (IH (snd (monitor_tick dumps i s))) as (Hc' & Hs' & Ht').
    + now rewrite Hc.
    + now rewrite Hc.
    + cbn zeta in Hc', Hs', Ht'. rewrite Hc', Hs', Ht', Hc, Hs, Ht.
      split; [reflexivity|]. split.
      * cbn [length]. lia.
      * cbn [records flat_map]. now rewrite <- app_assoc.
Qed.

(** X4. The welcome record carries the reading of the latest tick: after
    any run of the poll loop, accepting a connection serialises a welcome
    whose [pir_state] is the last reading of the run, or the state from
    before the run when it had no tick. *)
Theorem welcome_carries_latest_reading inputs down stamp k addr s :
  let s1 := snd (monitor_sensor dumps inputs s) in
  let r := handle_client dumps down stamp k addr s1 in
  let latest := last (map reading inputs) (pir_state s) in
  trace (snd r) =
    trace s1 ++ [Append (k, addr); Dumps (welcome_msg stamp latest);
                 attempt down (dumps (welcome_msg stamp latest) ++ newline)
                         (k, addr)] /\
  (forall now fr,
      Client.on_message now (welcome_msg stamp latest) fr =
      (Ret tt,
       Client.set_previous_state (VInt latest)
         (Client.on_self
            (Client.emit (Client.LogWelcome (VStr "Connected to PIR server")))
            fr))).
Proof.
  intros s1 r latest. unfold r. rewrite handle_client_run. cbn [snd].
  unfold s1. rewrite monitor_sensor_pir_state. fold latest.
  split; [reflexivity|]. intros now fr. reflexivity.
Qed.

(** X5. The record of a tick is built after the sensor was read: its
    [state] is the reading, [motion] tells whether the reading is not 0,
    [motion_count] is the count including an edge seen on this very tick,
    and [clients_connected] counts the registry before the tick drops the
    connections whose write fails. *)
Theorem record_reflects_the_tick i s :
  let s' := snd (monitor_tick dumps i s) in
  match state_record i (reading i) (after_reading i s) with
  | VDict d =>
      lookup "type" d = Some (VStr "pir_state") /\
      lookup "state" d = Some (VInt (reading i)) /\
      lookup "motion" d = Some (VBool (negb (Z.eqb (reading i) 0))) /\
      lookup "pin" d = Some (VInt 24) /\
      lookup "motion_count" d = Some (VInt (motion_count s')) /\
      lookup "clients_connected" d =
        Some (VInt (Z.of_nat (length (clients s)))) /\
      (length (clients s') <= length (clients s))%nat
  | _ => False
  end.
Proof.
  intros s'. cbn [state_record].
  destruct (after_reading_frame i s) as (Hc & _).
  assert (Hm : motion_count s' = motion_count (after_reading i s)).
  { unfold s'. rewrite monitor_tick_run. cbn [snd].
    destruct (clients s); reflexivity. }
  assert (Hl : (length (clients s') <= length (clients s))%nat).
  { unfold s'. rewrite monitor_tick_run. cbn [snd].
    destruct (clients s) as [|c l] eqn:E; [rewrite Hc; apply le_n|].
    cbn [set_send_counter add_trace set_clients clients].
    apply filter_length_le. }
  rewrite Hm, Hc. repeat split. exact Hl.
Qed.

Lemma monitor_tick_last_state_change i s :
  last_state_change (snd (monitor_tick dumps i s)) =
  last_state_change (after_reading i s).
Proof.
  rewrite monitor_tick_run. cbn [snd]. destruct (clients s); reflexivity.
Qed.

Lemma after_reading_last_state_change i s t0 :
  last_state_change s <= t0 -> t0 <= time_at_change i ->
  last_state_change (after_reading i s) <= time_at_change i.
Proof.
  intros H0 H1. unfold after_reading.
  destruct (Z.eqb (reading i) (previous_state s)); cbn.
  - now apply Qle_trans with t0.
  - destruct (Z.eqb (reading i) 1); cbn; apply Qle_refl.
Qed.

Lemma records_elapsed_ok inputs : forall s t0,
  last_state_change s <= t0 -> clock_ok t0 inputs ->
  Forall elapsed_ok (records dumps inputs s).
Proof.
  induction inputs as [|i inputs IH]; intros s t0 H0 Hc; [constructor|].
  destruct Hc as (H1 & H2 & Hrest).
  pose proof (after_reading_last_state_change i s H0 H1) as Hl.
  cbn [records]. constructor.
  - remember (after_reading i s) as s1 eqn:Es1. cbn.
    destruct (Server.Qlt_bool 0 (last_state_change s1)); [|reflexivity].
    apply (proj1 (Qle_minus_iff _ _)).
    now apply Qle_trans with (time_at_change i).
  - apply IH with (t0 := time_at_send i); [|assumption].
    rewrite monitor_tick_last_state_change.
    now apply Qle_trans with (time_at_change i).
Qed.

(** X6. With a clock that never runs backwards, the field
    [time_since_change] of every record of a run is a number that is not
    negative: the integer 0 until a change has been seen, the time since
    the last change afterwards. *)
Theorem time_since_change_is_not_negative inputs s :
  clock_ok (last_state_change s) inputs ->
  Forall elapsed_ok (records dumps inputs s).
Proof. intros H. apply records_elapsed_ok with (t0 := last_state_change s); [apply Qle_refl | exact H]. Qed.

Lemma accept_step_run accepted started s :
  accept_step accepted started s =
  (Ret match accepted, started with
       | Ret c, Ret _ => Some c
       | _, _ => None
       end, s).
Proof.
  unfold accept_step, try_except, bind, ret, raise.
  destruct accepted as [c|e]; [destruct started as [[]|e] |];
    try reflexivity; destruct e; reflexivity.
Qed.

Lemma handle_client_parts down stamp k addr s :
  handle_client dumps down stamp k addr s =
  (register (k, addr) ;; welcome dumps down stamp (k, addr)) s.
Proof. reflexivity. Qed.

Lemma handler_does_run h s :
  handler_does dumps h s =
  (Ret tt,
   match h with
   | Registers c =>
       add_trace [Append c] (set_clients (clients s ++ [c]) s)
   | Welcomes c stamp down =>
       add_trace [Dumps (welcome_msg stamp (pir_state s));
                  attempt down (dumps (welcome_msg stamp (pir_state s))
                                ++ newline) c] s
   end).
Proof.
  destruct h as [c|c stamp down]; cbn [handler_does].
  - reflexivity.
  - unfold welcome, json_dumps, send, attempt. run.
    destruct (down (fst c)); simpl; unfold add_trace, emit; simpl;
      rewrite <- !app_assoc; reflexivity.
Qed.

(** X7. The accept loop registers nothing itself. It never raises and
    leaves the state of the server as it was; all it does is to start one
    handler thread for each connection that [accept] returned, provided
    that [start] returned too: a timeout or an error of [accept], or a
    thread that does not start, leaves no handler. The registry grows
    when the handlers run: [handle_client] is a registration followed by
    a welcome, and however the steps of the handlers follow each other,
    they never raise, the registry is the old one with the connections
    in the order of their registrations behind it, each welcome carries
    the sensor state and makes one attempt, and the sensor state and the
    count are untouched. When every started handler has registered, the
    registry holds the old clients and those accepted, in some order. *)
Theorem accept_loop_only_starts_handlers inputs steps s :
  accept_loop inputs s = (Ret (started_for inputs), s) /\
  (forall down stamp k addr s0,
      handle_client dumps down stamp k addr s0 =
      handlers_run dumps
        [Registers (k, addr); Welcomes (k, addr) stamp down] s0) /\
  let r := handlers_run dumps steps s in
  fst r = Ret tt /\
  clients (snd r) = clients s ++ registered_by steps /\
  trace (snd r) = trace s ++ handler_events dumps (pir_state s) steps /\
  pir_state (snd r) = pir_state s /\
  motion_count (snd r) = motion_count s /\
  (Permutation (registered_by steps) (started_for inputs) ->
   Permutation (clients (snd r)) (clients s ++ started_for inputs)).
Proof.
  split; [|split].
  - revert s. induction inputs as [|[accepted started] inputs IH]; intros s;
      [reflexivity|].
    cbn [accept_loop]. unfold bind. rewrite accept_step_run, IH.
    destruct accepted as [c|e]; [destruct started as [[]|e] |]; reflexivity.
  - intros down stamp k addr s0. rewrite handle_client_parts.
    cbn [handlers_run handler_does]. unfold bind.
    destruct (register (k, addr) s0) as [[[]|e] s1]; [|reflexivity].
    now destruct (welcome dumps down stamp (k, addr) s1) as [[[]|e] s2].
  - assert (H : fst (handlers_run dumps steps s) = Ret tt /\
                clients (snd (handlers_run dumps steps s)) =
                  clients s ++ registered_by steps /\
                trace (snd (handlers_run dumps steps s)) =
                  trace s ++ handler_events dumps (pir_state s) steps /\
                pir_state (snd (handlers_run dumps steps s)) = pir_state s /\
                motion_count (snd (handlers_run dumps steps s)) =
                  motion_count s).
    { revert s. induction steps as [|h steps IH]; intros s.
      - cbn. rewrite !app_nil_r. repeat split.
      - cbn [handlers_run]. unfold bind. rewrite handler_does_run.
        match goal with |- context [handlers_run dumps steps ?s1] =>
          destruct (IH s1) as (H1 & H2 & H3 & H4 & H5) end.
        rewrite H1, H2, H3, H4, H5.
        destruct h as [c|c stamp down];
          cbn [registered_by handler_events add_trace set_clients clients
               trace pir_state motion_count];
          rewrite <- ?app_assoc; repeat split. }
    destruct H as (H1 & H2 & H3 & H4 & H5). cbn zeta.
    repeat (split; [assumption|]).
    intros Hp. rewrite H2. now apply Permutation_app_head.
Qed.











End MoreServerProps.
(** ** The client: the receive loop *)

Section MoreDecoder.

Import Client.

Variable loads : string -> loaded.

Lemma receive_step_timeout now fr :
  receive_step loads now (Raise socket_timeout) fr = (Ret true, fr).
Proof. reflexivity. Qed.

Lemma receive_loop_stopped inputs fr :
  live fr = false -> receive_loop loads inputs fr = (Ret tt, fr).
Proof.
  intros H. destruct inputs as [|[now r] rest]; [reflexivity|].
  cbn [receive_loop]. unfold bind, get. unfold live in H. now rewrite H.
Qed.

(** What a line raises is never a timeout. *)
Lemma on_line_outcome now line fr :
  fst (on_line loads now line fr) = Ret tt \/
  exists e, on_line loads now line fr = (Raise e, fr) /\ e <> socket_timeout.
Proof.
  destruct (strip_nonempty line) eqn:Hs; [|left; now rewrite on_line_blank].
  destruct (loads line) as [m|e] eqn:Hl.
  - rewrite (@on_line_parsed loads now line m fr Hs Hl).
    destruct m;
      try (right; exists AttributeError; split; [reflexivity | discriminate]).
    left. now rewrite on_message_dict.
  - rewrite (@on_line_raised loads now line e fr Hs Hl).
    destruct e; [left; reflexivity | right | right];
      eexists; (split; [reflexivity | discriminate]).
Qed.

Lemma drain_all_outcome now : forall n fr,
  (String.length (buffer fr) <= n)%nat ->
  fst (drain_all loads now fr) = Ret tt \/
  exists e, fst (drain_all loads now fr) = Raise e /\ e <> socket_timeout.
Proof.
  induction n as [|n IH]; intros fr Hn; rewrite drain_all_unfold.
  - destruct (buffer fr); [left; reflexivity | simpl in Hn; lia].
  - destruct (split_newline (buffer fr)) as [[line rest]|] eqn:E;
      [|left; reflexivity].
    apply split_newline_shorter in E. unfold bind.
    pose proof (on_line_buffer loads now line (set_buffer rest fr)) as Hb.
    destruct (on_line_outcome now line (set_buffer rest fr))
      as [H | (e & H & He)].
    + destruct (on_line loads now line (set_buffer rest fr)) as [o fr1].
      cbn [fst snd] in H, Hb. subst o. apply IH. rewrite Hb. cbn. lia.
    + rewrite H. right. exists e. split; [reflexivity | exact He].
Qed.

Lemma receive_step_outcome now received fr :
  exists go, fst (receive_step loads now received fr) = Ret go /\
             (go = false ->
              connected (self (snd (receive_step loads now received fr))) = false).
Proof.
  destruct received as [data|e].
  - destruct data as [|c data].
    + exists false. split; reflexivity.
    + rewrite receive_step_data by discriminate.
      destruct (@drain_all_outcome now _
                  (set_buffer (buffer fr ++ String c data) fr)
                  (le_n _)) as [H | (e & H & He)];
        destruct (drain_all loads now _) as [o fr1]; cbn [fst] in H; subst o.
      * exists true. split; [reflexivity | discriminate].
      * exists false. destruct e; try congruence; split; reflexivity.
  - destruct e; try (exists false; split; reflexivity).
    exists true. split; [reflexivity | discriminate].
Qed.

(** X9. The loop of [_receive_data] never ends with an exception,
    whatever the socket delivers or raises and whatever the frames
    contain. *)
Theorem receive_loop_never_raises inputs : forall fr,
  fst (receive_loop loads inputs fr) = Ret tt.
Proof.
  induction inputs as [|[now r] rest IH]; intros fr; [reflexivity|].
  cbn [receive_loop]. unfold bind, get.
  destruct (running (self fr) && connected (self fr)); [|reflexivity].
  destruct (receive_step_outcome now r fr) as (go & Hgo & _).
  destruct (receive_step loads now r fr) as [o fr1]. cbn [fst] in Hgo.
  subst o. destruct go; [apply IH | reflexivity].
Qed.

(** X10. Read timeouts are invisible: taking the turns on which [recv]
    timed out away from a run changes nothing in what the loop does. *)
Theorem timeouts_are_invisible inputs : forall fr,
  receive_loop loads
    (filter (fun x => negb (is_timeout (snd x))) inputs) fr =
  receive_loop loads inputs fr.
Proof.
  induction inputs as [|[now r] rest IH]; intros fr; [reflexivity|].
  destruct (live fr) eqn:Hl; [|now rewrite !receive_loop_stopped].
  cbn [filter snd]. destruct (is_timeout r) eqn:Ht; cbn [negb].
  - destruct r as [|e]; [discriminate|]. destruct e; try discriminate.
    rewrite IH. cbn [receive_loop]. unfold bind, get. unfold live in Hl.
    rewrite Hl. rewrite receive_step_timeout. reflexivity.
  - cbn [receive_loop]. unfold bind, get. unfold live in Hl. rewrite Hl.
    destruct (receive_step loads now r fr) as [[[|]|e] fr1];
      [apply IH | reflexivity | reflexivity].
Qed.

(** X11. A link that went down stays down: once the loop has seen the
    peer close or a socket error, or the client was stopped, nothing that
    arrives later is read. *)
Theorem nothing_is_read_after_the_link_went_down a b : forall fr,
  live (snd (receive_loop loads a fr)) = false ->
  receive_loop loads (a ++ b) fr = receive_loop loads a fr.
Proof.
  induction a as [|[now r] a IH]; intros fr H.
  - cbn in H. cbn [app]. now rewrite !receive_loop_stopped.
  - cbn [app receive_loop] in *. unfold bind, get in *.
    destruct (running (self fr) && connected (self fr)); [|reflexivity].
    destruct (receive_step loads now r fr) as [[[|]|e] fr1];
      [now apply IH | reflexivity | reflexivity].
Qed.

Lemma drain_all_append now y : forall n x fr,
  (String.length x <= n)%nat ->
  drain_all loads now (set_buffer (x ++ y) fr) =
  match drain_all loads now (set_buffer x fr) with
  | (Ret _, fr1) => drain_all loads now (set_buffer (buffer fr1 ++ y) fr1)
  | (Raise e, fr1) => (Raise e, set_buffer (buffer fr1 ++ y) fr1)
  end.
Proof.
  induction n as [|n IH]; intros x fr Hn;
    rewrite (drain_all_unfold loads now (set_buffer x fr)), buffer_set_buffer.
  - destruct x; [|simpl in Hn; lia]. cbn [split_newline append].
    now rewrite buffer_set_buffer, set_buffer_twice.
  - destruct (split_newline x) as [[line rest]|] eqn:E.
    + pose proof (split_newline_shorter _ E) as Hlt.
      destruct (split_newline_some _ E) as [-> Hline].
      rewrite drain_all_unfold, buffer_set_buffer.
      rewrite !append_assoc, (@split_newline_app line _ Hline).
      unfold bind. rewrite !set_buffer_twice, !on_line_set_buffer.
      destruct (on_line loads now line fr) as [[[]|e] fr1]; cbn [fst snd].
      * apply IH. lia.
      * reflexivity.
    + now rewrite buffer_set_buffer, set_buffer_twice.
Qed.

(** X12. How the stream is cut into reads does not matter: two reads
    with the data [d1] and [d2] leave the decoder where one read with
    [d1 ++ d2] leaves it. When a frame of [d1] ends the link, the one
    read ends it as well, with the same client object. *)
Theorem split_delivery_is_the_same now d1 d2 fr :
  d1 <> EmptyString -> d2 <> EmptyString ->
  let whole := receive_step loads now (Ret (d1 ++ d2)%string) fr in
  let first := receive_step loads now (Ret d1) fr in
  match fst first with
  | Ret true => receive_step loads now (Ret d2) (snd first) = whole
  | _ => fst whole = fst first /\
         self (snd whole) = self (snd first) /\
         previous_state (snd whole) = previous_state (snd first)
  end.
Proof.
  intros H1 H2 whole first. unfold whole, first.
  assert (H12 : (d1 ++ d2)%string <> EmptyString)
    by (destruct d1; [congruence | discriminate]).
  rewrite (receive_step_data loads now fr H12), (receive_step_data loads now fr H1).
  rewrite <- append_assoc.
  rewrite (@drain_all_append now d2 _ (buffer fr ++ d1)%string fr (le_n _)).
  destruct (@drain_all_outcome now _ (set_buffer (buffer fr ++ d1) fr) (le_n _))
    as [H | (e & H & He)];
    destruct (drain_all loads now (set_buffer (buffer fr ++ d1) fr)) as [o fr1];
    cbn [fst] in H; subst o; cbn [fst snd].
  - now rewrite (receive_step_data loads now fr1 H2).
  - destruct e; try congruence; repeat split.
Qed.

Lemma drain_all_tail now : forall n fr,
  (String.length (buffer fr) <= n)%nat ->
  fst (drain_all loads now fr) = Ret tt ->
  exists ls,
    Forall (fun l => split_newline l = None) ls /\
    buffer fr = (frames_text ls ++ buffer (snd (drain_all loads now fr)))%string /\
    split_newline (buffer (snd (drain_all loads now fr))) = None.
Proof.
  induction n as [|n IH]; intros fr Hn; rewrite drain_all_unfold.
  - destruct (buffer fr) eqn:E; [|simpl in Hn; lia]. cbn. intros _.
    exists []. rewrite E. repeat split. constructor.
  - destruct (split_newline (buffer fr)) as [[line rest]|] eqn:E.
    + pose proof (split_newline_shorter _ E) as Hlt.
      destruct (split_newline_some _ E) as [Hb Hline].
      unfold bind.
      pose proof (on_line_buffer loads now line (set_buffer rest fr)) as Hbuf.
      destruct (on_line loads now line (set_buffer rest fr)) as [[[]|e] fr1];
        cbn [snd] in Hbuf; [|discriminate].
      intros Hr. destruct (IH fr1) as (ls & Hls & Hdec & Htail);
        [rewrite Hbuf; cbn; lia | exact Hr |].
      exists (line :: ls). split; [now constructor|]. split; [|exact Htail].
      rewrite Hb. cbn [frames_text]. rewrite !append_assoc.
      rewrite Hbuf in Hdec. cbn [buffer set_buffer] in Hdec. now rewrite <- Hdec.
    + intros _. exists []. cbn. split; [constructor | split; [reflexivity | exact E]].
Qed.

(** X13. After a read that leaves the link up, the buffer holds exactly
    the unfinished tail of what has arrived: what was buffered and what
    was read is a run of complete lines followed by the new buffer, and
    the new buffer holds no newline. *)
Theorem buffer_holds_the_unfinished_tail now data fr :
  data <> EmptyString ->
  fst (receive_step loads now (Ret data) fr) = Ret true ->
  exists ls,
    Forall (fun l => split_newline l = None) ls /\
    (buffer fr ++ data)%string =
      (frames_text ls ++ buffer (snd (receive_step loads now (Ret data) fr)))%string /\
    split_newline (buffer (snd (receive_step loads now (Ret data) fr))) = None.
Proof.
  intros Hd. rewrite (receive_step_data loads now fr Hd).
  pose proof (@drain_all_tail now _ (set_buffer (buffer fr ++ data) fr) (le_n _))
    as Ht.
  destruct (@drain_all_outcome now _ (set_buffer (buffer fr ++ data) fr) (le_n _))
    as [H | (e & H & He)];
    destruct (drain_all loads now (set_buffer (buffer fr ++ data) fr)) as [o fr1];
    cbn [fst snd] in *; subst o.
  - intros _. destruct (Ht eq_refl) as (ls & H1 & H2 & H3).
    exists ls. repeat split; assumption.
  - destruct e; try congruence; discriminate.
Qed.

Lemma motions_snoc t e :
  motions (t ++ [e]) = (motions t + (if is_motion e then 1 else 0))%nat.
Proof. rewrite motions_app. unfold motions. cbn. now destruct (is_motion e). Qed.

Lemma advanced_refl fr : advanced fr fr.
Proof. unfold advanced. repeat split; auto; lia. Qed.

Lemma advanced_trans a b c : advanced a b -> advanced b c -> advanced a c.
Proof.
  unfold advanced.
  intros (H1 & H2 & H3 & H4 & H5 & H6) (G1 & G2 & G3 & G4 & G5 & G6).
  split; [lia|]. split; [|split; [|split; [|split]]].
  - intros E. destruct H2 as [Ha Hb]; [lia|]. destruct G2 as [Ga Gb]; [lia|].
    split; congruence.
  - intros L.
    destruct (Nat.eq_dec (motions (trace (self b))) (motions (trace (self c))))
      as [E | N].
    + destruct (G2 E) as [Ga _]. rewrite Ga. apply H3. lia.
    + apply G3. lia.
  - auto.
  - congruence.
  - auto.
Qed.

Lemma advanced_by_self fr fr' :
  self fr' = self fr -> advanced fr fr'.
Proof. intros H. unfold advanced. rewrite H. repeat split; auto; lia. Qed.

Lemma advanced_set_buffer b fr : advanced fr (set_buffer b fr).
Proof. now apply advanced_by_self. Qed.

Lemma decoded_advanced now d fr : advanced fr (decoded now d fr).
Proof.
  unfold decoded.
  destruct (eq_str (field d "type" VNone) "pir_state").
  - destruct (eq_int (field d "state" (VInt 0)) 1
              && eq_int (previous_state fr) 0).
    + unfold advanced, mark_motion.
      cbn [self set_previous_state on_self trace emit motion_detected
           last_motion_time running connected set_last_motion_time
           set_motion_detected].
      rewrite motions_snoc. cbn [is_motion].
      repeat split; auto; lia.
    + now apply advanced_by_self.
  - destruct (eq_str (field d "type" VNone) "welcome").
    + unfold advanced.
      cbn [self set_previous_state on_self trace emit motion_detected
           last_motion_time running connected].
      rewrite motions_snoc. cbn [is_motion].
      repeat split; auto; lia.
    + apply advanced_refl.
Qed.

Lemma on_line_advanced now line fr :
  advanced fr (snd (on_line loads now line fr)).
Proof.
  destruct (strip_nonempty line) eqn:Hs;
    [|rewrite on_line_blank by assumption; apply advanced_refl].
  destruct (loads line) as [m|e] eqn:Hl;
    [|rewrite (@on_line_raised loads now line e fr Hs Hl); apply advanced_refl].
  rewrite (@on_line_parsed loads now line m fr Hs Hl).
  destruct m; try apply advanced_refl.
  rewrite on_message_dict. apply decoded_advanced.
Qed.

Lemma drain_all_advanced now : forall n fr,
  (String.length (buffer fr) <= n)%nat ->
  advanced fr (snd (drain_all loads now fr)).
Proof.
  induction n as [|n IH]; intros fr Hn; rewrite drain_all_unfold.
  - destruct (buffer fr); [apply advanced_refl | simpl in Hn; lia].
  - destruct (split_newline (buffer fr)) as [[line rest]|] eqn:E;
      [|apply advanced_refl].
    apply split_newline_shorter in E. unfold bind.
    pose proof (on_line_buffer loads now line (set_buffer rest fr)) as Hb.
    pose proof (on_line_advanced now line (set_buffer rest fr)) as Ha.
    destruct (on_line loads now line (set_buffer rest fr)) as [[[]|e] fr1];
      cbn [snd] in *.
    + apply advanced_trans with fr1.
      * apply advanced_trans with (set_buffer rest fr);
          [apply advanced_set_buffer | exact Ha].
      * apply IH. rewrite Hb. cbn. lia.
    + apply advanced_trans with (set_buffer rest fr);
        [apply advanced_set_buffer | exact Ha].
Qed.

Lemma advanced_disconnect e fr :
  is_motion e = false ->
  advanced fr (on_self (set_connected false) (on_self (emit e) fr)).
Proof.
  intros H. unfold advanced.
  cbn [self on_self trace emit set_connected motion_detected last_motion_time
       running connected].
  rewrite motions_snoc, H. repeat split; auto; try lia; try discriminate.
Qed.

Lemma receive_step_advanced now received fr :
  advanced fr (snd (receive_step loads now received fr)).
Proof.
  destruct received as [data|e].
  - destruct data as [|c data].
    + cbn. now apply advanced_disconnect.
    + rewrite receive_step_data by discriminate.
      pose proof (@drain_all_advanced now _
                    (set_buffer (buffer fr ++ String c data) fr) (le_n _)) as Ha.
      destruct (drain_all loads now _) as [[[]|e] fr1]; cbn [snd] in *.
      * eapply advanced_trans; [apply advanced_set_buffer | exact Ha].
      * assert (Hb : advanced fr fr1)
          by (eapply advanced_trans; [apply advanced_set_buffer | exact Ha]).
        destruct e; cbn [snd]; try exact Hb;
          (eapply advanced_trans; [exact Hb | now apply advanced_disconnect]).
  - destruct e; cbn; try apply advanced_refl; now apply advanced_disconnect.
Qed.

(** X14. Whatever arrives, the receive loop never clears the motion flag,
    never touches [running] and never sets [connected]; it changes the
    flag and the time of the last motion only when it reports a motion,
    and after a report the flag is set. *)
Theorem receive_loop_only_marks_motion inputs : forall fr,
  advanced fr (snd (receive_loop loads inputs fr)).
Proof.
  induction inputs as [|[now r] rest IH]; intros fr; [apply advanced_refl|].
  cbn [receive_loop]. unfold bind, get.
  destruct (running (self fr) && connected (self fr)); [|apply advanced_refl].
  pose proof (receive_step_advanced now r fr) as Ha.
  destruct (receive_step loads now r fr) as [[[|]|e] fr1]; cbn [snd] in *;
    try exact Ha.
  eapply advanced_trans; [exact Ha | apply IH].
Qed.

(** X15. A frame that is valid JSON but not an object ends the link: the
    error goes to the log, [connected] becomes false, and the frames that
    arrived behind it are never decoded. *)
Theorem non_object_frame_ends_the_link now line m rest data fr :
  split_newline line = None -> strip_nonempty line = true ->
  loads line = Loaded m -> is_dict m = false ->
  data <> EmptyString ->
  (buffer fr ++ data)%string = (line ++ nl ++ rest)%string ->
  receive_step loads now (Ret data) fr =
  (Ret false,
   on_self (set_connected false)
     (on_self (emit (LogReceiveError AttributeError)) (set_buffer rest fr))).
Proof.
  intros Hn Hs Hl Hd Hdata Hb.
  rewrite (receive_step_data loads now fr Hdata), Hb.
  rewrite drain_all_unfold, buffer_set_buffer.
  rewrite (@split_newline_app line _ Hn). unfold bind.
  rewrite set_buffer_twice, (@on_line_parsed loads now line m _ Hs Hl).
  rewrite (@on_message_not_dict now m _ Hd). reflexivity.
Qed.

Lemma on_line_passed_over now line fr :
  passed_over loads line -> on_line loads now line fr = (Ret tt, fr).
Proof.
  intros [H | [H | (d & Hl & H1 & H2)]].
  - now apply on_line_blank.
  - now apply on_line_unparsed.
  - destruct (strip_nonempty line) eqn:Hs; [|now apply on_line_blank].
    rewrite (@on_line_parsed loads now line _ fr Hs Hl), on_message_dict.
    unfold decoded. now rewrite H1, H2.
Qed.

(** X16. Blank lines and records of a type the client does not know are
    passed over like lines that do not parse: with such a line in the
    buffer, behind any number of complete lines, the decoder ends as it
    ends without it. *)
Theorem passed_over_line_changes_nothing now bad rest : forall ls fr,
  Forall (fun l => split_newline l = None) ls ->
  split_newline bad = None ->
  passed_over loads bad ->
  alike (drain loads now
               (String.length (frames_text ls ++ bad ++ nl ++ rest))
               (set_buffer (frames_text ls ++ bad ++ nl ++ rest) fr))
        (drain loads now
               (String.length (frames_text ls ++ rest))
               (set_buffer (frames_text ls ++ rest) fr)).
Proof.
  intros ls fr Hls Hn Hp.
  change (alike (drain_all loads now
                   (set_buffer (frames_text ls ++ bad ++ nl ++ rest) fr))
                (drain_all loads now (set_buffer (frames_text ls ++ rest) fr))).
  revert fr. induction Hls as [|l ls Hl0 Hls IH]; intros fr.
  - cbn [frames_text append].
    rewrite drain_all_unfold, buffer_set_buffer.
    rewrite (@split_newline_app bad rest Hn). unfold bind.
    rewrite set_buffer_twice, (on_line_passed_over now _ Hp).
    apply alike_refl.
  - rewrite (drain_all_unfold loads now
               (set_buffer (frames_text (l :: ls) ++ rest) fr)).
    rewrite drain_all_unfold, !buffer_set_buffer. cbn [frames_text].
    rewrite !append_assoc, !(@split_newline_app l _ Hl0).
    unfold bind. rewrite !set_buffer_twice, !on_line_set_buffer.
    destruct (on_line loads now l fr) as [[[]|e] fr1]; cbn [fst snd].
    + apply IH.
    + unfold alike. cbn. auto.
Qed.

(** X17. States are compared as Python compares them. A state record
    whose state equals neither 0 nor 1 marks no motion and becomes the
    previous state, so that a record with state 1 that follows marks no
    motion either. *)
Theorem odd_state_hides_the_next_edge now m v r fr :
  lookup "type" m = Some (VStr "pir_state") ->
  lookup "state" m = Some v ->
  eq_int v 0 = false -> eq_int v 1 = false ->
  carries_state r 1 ->
  on_message now (VDict m) fr = (Ret tt, set_previous_state v fr) /\
  on_message now (VDict r) (set_previous_state v fr) =
    (Ret tt, set_previous_state (VInt 1) fr).
Proof.
  intros Ht Hv H0 H1 Hr. split.
  - rewrite on_message_dict. unfold decoded, field. rewrite Ht, Hv. cbn.
    now rewrite H1.
  - rewrite on_message_dict, (decoded_state now _ Hr).
    cbn [previous_state set_previous_state]. now rewrite H0.
Qed.

(** X24. A frame on which [json.loads] raises anything but
    [JSONDecodeError] ends the link like a socket error: the inner
    handler lets the exception pass, the outer one writes it to the log
    and clears [connected], and the frames that arrived behind it are
    never decoded. *)
Theorem frame_beyond_the_limits_ends_the_link now line e rest data fr :
  split_newline line = None -> strip_nonempty line = true ->
  loads line = NotLoaded e -> e <> NotJSON ->
  data <> EmptyString ->
  (buffer fr ++ data)%string = (line ++ nl ++ rest)%string ->
  raised_by_loads e <> JSONDecodeError /\
  on_line loads now line fr = (Raise (raised_by_loads e), fr) /\
  receive_step loads now (Ret data) fr =
  (Ret false,
   on_self (set_connected false)
     (on_self (emit (LogReceiveError (raised_by_loads e)))
              (set_buffer rest fr))).
Proof.
  intros Hn Hs Hl He Hdata Hb.
  split; [destruct e; [congruence | discriminate | discriminate]|].
  split.
  - rewrite (@on_line_raised loads now line e fr Hs Hl).
    destruct e; [congruence | reflexivity | reflexivity].
  - rewrite (receive_step_data loads now fr Hdata), Hb.
    rewrite drain_all_unfold, buffer_set_buffer.
    rewrite (@split_newline_app line _ Hn). unfold bind.
    rewrite set_buffer_twice, (@on_line_raised loads now line e _ Hs Hl).
    destruct e; [congruence | reflexivity | reflexivity].
Qed.

End MoreDecoder.

(** ** The client: discovery, [connect] and [close] *)

Section MoreClient.

Import Client.

Variable cfg : settings.
Variable connect_ex : string -> Z -> outcome Z.

Lemma probe_closes_app a b :
  probe_closes (a ++ b) = probe_closes a ++ probe_closes b.
Proof.
  induction a as [|e a IH]; [reflexivity|].
  destruct e; cbn; now rewrite IH.
Qed.





Lemma split_nonempty sep s : split sep s <> [].
Proof.
  destruct s as [|c s]; cbn; [discriminate|].
  destruct (Ascii.eqb c sep); [discriminate|].
  destruct (split sep s); discriminate.
Qed.

Lemma split_no_sep sep d : contains sep d = false -> split sep d = [d].
Proof.
  induction d as [|c d IH]; [reflexivity|].
  cbn. destruct (Ascii.eqb c sep); [discriminate|]. cbn.
  intros H. now rewrite (IH H).
Qed.

Lemma split_app_sep sep s t :
  split sep (s ++ String sep t) = split sep s ++ split sep t.
Proof.
  induction s as [|c s IH]; cbn.
  - now rewrite Ascii.eqb_refl.
  - destruct (Ascii.eqb c sep); [now rewrite IH|].
    rewrite IH. pose proof (split_nonempty sep s) as H.
    destruct (split sep s); [congruence | reflexivity].
Qed.

Lemma concat_cons sep x l :
  l <> [] ->
  String.concat sep (x :: l) = (x ++ sep ++ String.concat sep l)%string.
Proof. destruct l; [congruence | reflexivity]. Qed.

Lemma concat_split sep s :
  String.concat (String sep EmptyString) (split sep s) = s.
Proof.
  induction s as [|c s IH]; [reflexivity|].
  cbn [split]. destruct (Ascii.eqb c sep) eqn:E.
  - apply Ascii.eqb_eq in E. subst c.
    rewrite concat_cons by apply split_nonempty. now rewrite IH.
  - pose proof (split_nonempty sep s) as H.
    destruct (split sep s) as [|h t] eqn:Es; [congruence|].
    destruct t as [|h' t].
    + cbn in *. now rewrite IH.
    + rewrite concat_cons by discriminate.
      rewrite concat_cons in IH by discriminate.
      rewrite <- IH. reflexivity.
Qed.

(** X19. The network prefix is the address without its last component:
    for any text [s] and any [d] without a dot, the prefix of
    [s ++ "." ++ d] is [s ++ "."], so the probes go to the hosts of the
    same /24 network; an address without a dot gives the prefix ["."]. *)
Theorem network_prefix_drops_last_component s d :
  contains "." d = false ->
  network_prefix_of (s ++ "." ++ d) = (s ++ ".")%string /\
  network_prefix_of d = "."%string.
Proof.
  intros H. unfold network_prefix_of. split.
  - cbn [append]. rewrite split_app_sep, (split_no_sep _ _ H).
    rewrite removelast_last. now rewrite concat_split.
  - now rewrite (split_no_sep _ _ H).
Qed.

Variable socket_socket : string -> outcome unit.
Variable socket_connect : string -> outcome unit.
Variable thread_start : outcome unit.
Variable local_ip : outcome string.

Lemma add_events_nil c : add_events [] c = c.
Proof. destruct c. unfold add_events. cbn. now rewrite app_nil_r. Qed.

Lemma scan_sockets_run network_prefix : forall range c,
  scan_sockets cfg socket_socket connect_ex network_prefix range c =
  (scan_sockets_outcome cfg socket_socket connect_ex
     (hosts_of network_prefix range),
   add_events (scan_sockets_events cfg socket_socket connect_ex
                 (hosts_of network_prefix range)) c).
Proof.
  induction range as [|i range IH]; intros c.
  - reflexivity.
  - cbn [scan_sockets hosts_of map scan_sockets_outcome scan_sockets_events].
    fold (hosts_of network_prefix range). unfold accepts. run.
    destruct (socket_socket (network_prefix ++ str i)) as [[]|e0]; simpl;
      [|now rewrite add_events_nil].
    destruct (connect_ex (network_prefix ++ str i) (port cfg)) as [z|e]; simpl.
    + destruct (Z.eqb z 0) eqn:E.
      * apply Z.eqb_eq in E. subst z. simpl.
        unfold add_events, emit. simpl. rewrite <- !app_assoc. reflexivity.
      * assert (Hz : match z with 0%Z => true | _ => false end = false)
          by (destruct z; [discriminate | reflexivity | reflexivity]).
        rewrite Hz. simpl. rewrite IH.
        unfold add_events, emit. simpl. rewrite <- !app_assoc. reflexivity.
    + rewrite IH. unfold add_events, emit. simpl.
      rewrite <- !app_assoc. reflexivity.
Qed.

Lemma scan_sockets_events_closed hosts :
  probe_closes (scan_sockets_events cfg socket_socket connect_ex hosts) =
    probed (scan_sockets_events cfg socket_socket connect_ex hosts) /\
  (length (probed (scan_sockets_events cfg socket_socket connect_ex hosts))
   <= length hosts)%nat.
Proof.
  induction hosts as [|ip hosts [IH1 IH2]]; [split; [reflexivity | apply le_n]|].
  cbn [scan_sockets_events].
  destruct (socket_socket ip); [|split; [reflexivity | cbn; lia]].
  destruct (accepts cfg connect_ex ip); cbn; [split; [reflexivity | lia]|].
  rewrite IH1. split; [reflexivity | lia].
Qed.

Lemma scan_sockets_open hosts :
  (forall a, socket_socket a = Ret tt) ->
  scan_sockets_outcome cfg socket_socket connect_ex hosts =
    Ret (find (accepts cfg connect_ex) hosts) /\
  scan_sockets_events cfg socket_socket connect_ex hosts =
    scan_events cfg connect_ex hosts.
Proof.
  intros Ho. induction hosts as [|ip hosts [IH1 IH2]]; [now split|].
  cbn [scan_sockets_outcome scan_sockets_events find].
  rewrite scan_events_cons, (Ho ip).
  destruct (accepts cfg connect_ex ip); [now split|].
  now rewrite IH1, IH2.
Qed.

Lemma scan_sockets_raises hosts e :
  scan_sockets_outcome cfg socket_socket connect_ex hosts = Raise e <->
  exists before bad after,
    hosts = before ++ bad :: after /\
    socket_socket bad = Raise e /\
    Forall (fun h => socket_socket h = Ret tt /\
                     accepts cfg connect_ex h = false) before.
Proof.
  induction hosts as [|ip hosts IH]; cbn [scan_sockets_outcome].
  - split; [discriminate|].
    intros (before & bad & after & H & _). now destruct before.
  - destruct (socket_socket ip) as [[]|e0] eqn:Es.
    + destruct (accepts cfg connect_ex ip) eqn:Ea.
      * split; [discriminate|].
        intros (before & bad & after & H & Hb & Hf).
        destruct before as [|x before]; cbn in H; inversion H; subst.
        -- congruence.
        -- inversion Hf as [|? ? [_ Hx] _]; subst. congruence.
      * rewrite IH. split.
        -- intros (before & bad & after & -> & Hb & Hf).
           exists (ip :: before), bad, after.
           split; [reflexivity|]. split; [exact Hb|].
           constructor; [now split | exact Hf].
        -- intros (before & bad & after & H & Hb & Hf).
           destruct before as [|x before]; cbn in H; inversion H; subst.
           ++ congruence.
           ++ inversion Hf; subst. now exists before, bad, after.
    + split.
      * intros H. inversion H; subst. exists [], ip, hosts.
        split; [reflexivity|]. split; [exact Es | constructor].
      * intros (before & bad & after & H & Hb & Hf).
        destruct before as [|x before]; cbn in H; inversion H; subst.
        -- congruence.
        -- inversion Hf as [|? ? [Hx _] _]; subst. congruence.
Qed.

Lemma scan_sockets_found hosts a :
  scan_sockets_outcome cfg socket_socket connect_ex hosts = Ret (Some a) ->
  In a hosts /\ accepts cfg connect_ex a = true /\ socket_socket a = Ret tt.
Proof.
  induction hosts as [|ip hosts IH]; cbn [scan_sockets_outcome];
    [discriminate|].
  destruct (socket_socket ip) as [[]|e0] eqn:Es; [|discriminate].
  destruct (accepts cfg connect_ex ip) eqn:Ea.
  - intros H. inversion H; subst. split; [now left | now split].
  - intros H. destruct (IH H) as (H1 & H2 & H3).
    split; [now right | now split].
Qed.

Lemma find_raspberry_pi_sockets_routed ip c :
  find_raspberry_pi_sockets cfg (Ret ip) socket_socket connect_ex c =
  scan_sockets cfg socket_socket connect_ex (network_prefix_of ip) (seq 1 254)
       (emit (LogScanning (network_prefix_of ip)) (emit LogSearching c)).
Proof.
  cbv beta iota zeta delta [find_raspberry_pi_sockets bind try_except modify
                            Client.answer ret].
  reflexivity.
Qed.

Lemma find_raspberry_pi_sockets_unrouted e c :
  find_raspberry_pi_sockets cfg (Raise e) socket_socket connect_ex c =
  (Ret None, emit LogNoNetwork (emit LogSearching c)).
Proof. reflexivity. Qed.

Lemma find_raspberry_pi_sockets_run c :
  exists news,
    find_raspberry_pi_sockets cfg local_ip socket_socket connect_ex c =
    (match local_ip with
     | Ret ip => scan_sockets_outcome cfg socket_socket connect_ex
                   (hosts_of (network_prefix_of ip) (seq 1 254))
     | Raise _ => Ret None
     end,
     add_events news c) /\
    probe_closes news = probed news /\
    (length (probed news) <= 254)%nat.
Proof.
  destruct local_ip as [ip|e].
  - rewrite find_raspberry_pi_sockets_routed, scan_sockets_run.
    destruct (scan_sockets_events_closed
                (hosts_of (network_prefix_of ip) (seq 1 254))) as [Hc Hl].
    exists ([LogSearching; LogScanning (network_prefix_of ip)]
            ++ scan_sockets_events cfg socket_socket connect_ex
                 (hosts_of (network_prefix_of ip) (seq 1 254))).
    split; [|split].
    + unfold add_events, emit. cbn [connected motion_detected last_motion_time
                                    running trace].
      now rewrite <- !app_assoc.
    + rewrite probe_closes_app, probed_app. now rewrite Hc.
    + rewrite probed_app. cbn [probed app].
      eapply Nat.le_trans; [exact Hl|].
      unfold hosts_of. now rewrite length_map, length_seq.
  - rewrite find_raspberry_pi_sockets_unrouted.
    exists [LogSearching; LogNoNetwork].
    split; [|split; [reflexivity | cbn; lia]].
    unfold add_events, emit. cbn. now rewrite <- app_assoc.
Qed.

(** X25. The search with its probe sockets. It raises exactly when the
    set-up of a probe socket raises before any host has accepted, and
    then what that set-up raised; the hosts before it were probed and
    refused. Even then every socket on which a probe was made has been
    closed, and at most 254 probes were made. When the set-up returns
    for every host, the search is the one of [find_raspberry_pi]. *)
Theorem search_raises_what_a_probe_socket_raises c :
  let r := find_raspberry_pi_sockets cfg local_ip socket_socket connect_ex c in
  (forall e,
      fst r = Raise e <->
      exists ip before bad after,
        local_ip = Ret ip /\
        hosts_of (network_prefix_of ip) (seq 1 254) = before ++ bad :: after /\
        socket_socket bad = Raise e /\
        Forall (fun h => socket_socket h = Ret tt /\
                         accepts cfg connect_ex h = false) before) /\
  (exists news,
      snd r = add_events news c /\
      probe_closes news = probed news /\
      (length (probed news) <= 254)%nat) /\
  ((forall a, socket_socket a = Ret tt) ->
   r = find_raspberry_pi cfg local_ip connect_ex c).
Proof.
  intros r. unfold r. split; [|split].
  - intros e.
    destruct (find_raspberry_pi_sockets_run c) as (news & Hrun & _).
    rewrite Hrun. cbn [fst]. destruct local_ip as [ip|e0].
    + rewrite scan_sockets_raises. split.
      * intros (before & bad & after & H). now exists ip, before, bad, after.
      * intros (ip' & before & bad & after & Hip & H).
        inversion Hip; subst. now exists before, bad, after.
    + split; [discriminate|]. intros (ip & ? & ? & ? & H & _). discriminate.
  - destruct (find_raspberry_pi_sockets_run c) as (news & Hrun & Hc & Hl).
    rewrite Hrun. now exists news.
  - intros Ho. destruct local_ip as [ip|e].
    + rewrite find_raspberry_pi_sockets_routed, find_raspberry_pi_routed.
      rewrite scan_sockets_run, scan_run.
      destruct (scan_sockets_open
                  (hosts_of (network_prefix_of ip) (seq 1 254)) Ho) as [H1 H2].
      now rewrite H1, H2.
    + reflexivity.
Qed.

Lemma hosts_truthy network_prefix range a :
  In a (hosts_of (network_prefix_of network_prefix) range) ->
  truthy (Some a) = true.
Proof.
  unfold hosts_of. intros Hin. apply in_map_iff in Hin.
  destruct Hin as (i & <- & _). unfold network_prefix_of.
  destruct (String.concat "." (removelast (split "." network_prefix)));
    reflexivity.
Qed.

Lemma connect_run ip c :
  exists news,
    (truthy ip = true -> news = []) /\
    (truthy ip = false ->
     snd (find_raspberry_pi_sockets cfg local_ip socket_socket connect_ex c)
     = add_events news c) /\
    connect cfg local_ip socket_socket connect_ex socket_connect thread_start
            ip c =
    match target_of cfg local_ip socket_socket connect_ex ip c with
    | Raise e => (Raise e, add_events news c)
    | Ret (Some a) =>
        match socket_connect a with
        | Ret _ =>
            (match thread_start with
             | Ret _ => Ret true
             | Raise _ => Ret false
             end, set_connected true (add_events news c))
        | Raise _ => (Ret false, add_events news c)
        end
    | Ret None => (Ret false, add_events news c)
    end.
Proof.
  destruct (truthy ip) eqn:Hip.
  - exists []. split; [reflexivity|]. split; [discriminate|].
    destruct ip as [[|a rest]|]; try discriminate.
    unfold target_of, connect. cbn [truthy].
    unfold bind, ret, try_except, answer, modify. rewrite add_events_nil.
    destruct (socket_connect (String a rest)) as [[]|e]; [|reflexivity].
    destruct thread_start as [[]|e]; reflexivity.
  - destruct (find_raspberry_pi_sockets_run c) as (news & Hrun & _).
    exists news. split; [discriminate|]. split; [now rewrite Hrun|].
    unfold target_of, connect. rewrite Hip. unfold bind at 1.
    rewrite Hrun. cbn [fst].
    set (found := match local_ip with
                  | Ret ip0 => scan_sockets_outcome cfg socket_socket connect_ex
                                 (hosts_of (network_prefix_of ip0) (seq 1 254))
                  | Raise _ => Ret None
                  end).
    assert (Hf : forall a, found = Ret (Some a) -> truthy (Some a) = true).
    { unfold found. intros a Ha. destruct local_ip as [ip0|]; [|discriminate].
      apply scan_sockets_found in Ha. destruct Ha as [Hin _].
      exact (hosts_truthy _ _ _ Hin). }
    destruct found as [[a|]|e]; [|reflexivity|reflexivity].
    rewrite (Hf a eq_refl).
    unfold bind, ret, try_except, answer, modify.
    destruct (socket_connect a) as [[]|e]; [|reflexivity].
    destruct thread_start as [[]|e]; reflexivity.
Qed.

Lemma connect_keeps ip c :
  let r := connect cfg local_ip socket_socket connect_ex socket_connect
                   thread_start ip c in
  running (snd r) = running c /\
  motion_detected (snd r) = motion_detected c /\
  last_motion_time (snd r) = last_motion_time c.
Proof.
  intros r. unfold r.
  destruct (connect_run ip c) as (news & _ & _ & Hrun). rewrite Hrun.
  destruct (target_of cfg local_ip socket_socket connect_ex ip c)
    as [[a|]|e]; [destruct (socket_connect a)| |]; repeat split.
Qed.

(** X20. What [connect] does. It raises exactly when the search it runs
    raises, and then the same exception; with an address given it runs
    no search, leaves the trace alone and never raises. It answers true
    exactly when the socket connect to its target, the address given or
    else the address found by the search, and the start of the receive
    thread have both returned. It sets [connected] as soon as the socket
    connect has returned, so a thread that does not start leaves a
    client that answered false and is marked connected; otherwise
    [connected] is as it was. It never touches [running] nor the motion
    flag. *)
Theorem connect_reports_what_it_did ip c :
  let r := connect cfg local_ip socket_socket connect_ex socket_connect
                   thread_start ip c in
  let search :=
    find_raspberry_pi_sockets cfg local_ip socket_socket connect_ex c in
  let target := target_of cfg local_ip socket_socket connect_ex ip c in
  (forall e, fst r = Raise e <-> target = Raise e) /\
  (fst r = Ret true <->
   exists a, target = Ret (Some a) /\ socket_connect a = Ret tt /\
             thread_start = Ret tt) /\
  (connected (snd r) = true <->
   connected c = true \/
   exists a, target = Ret (Some a) /\ socket_connect a = Ret tt) /\
  (forall a e,
      target = Ret (Some a) -> socket_connect a = Ret tt ->
      thread_start = Raise e ->
      fst r = Ret false /\ connected (snd r) = true) /\
  (truthy ip = true -> target = Ret ip /\ trace (snd r) = trace c) /\
  (truthy ip = false ->
   target = fst search /\ trace (snd r) = trace (snd search)) /\
  running (snd r) = running c /\
  motion_detected (snd r) = motion_detected c /\
  last_motion_time (snd r) = last_motion_time c.
Proof.
  intros r search target.
  destruct (connect_keeps ip c) as (K1 & K2 & K3). cbn zeta in K1, K2, K3.
  destruct (connect_run ip c) as (news & Hgiven & Hsearch & Hrun).
  assert (Hip1 : truthy ip = true -> target = Ret ip)
    by (unfold target, target_of; now intros ->).
  assert (Hip2 : truthy ip = false -> target = fst search)
    by (unfold target, target_of; now intros ->).
  fold target in Hrun. fold r in K1, K2, K3, Hrun. fold search in Hsearch.
  clearbody r target search.
  split; [|split; [|split; [|split; [|split; [|split]]]]].
  - intros e. rewrite Hrun.
    destruct target as [[a|]|e0]; [destruct (socket_connect a) as [[]|e1]| |];
      cbn [fst]; try (split; discriminate).
    + destruct thread_start; split; discriminate.
    + split; congruence.
  - rewrite Hrun. split.
    + destruct target as [[a|]|e0];
        [destruct (socket_connect a) as [[]|e1] eqn:Es| |];
        cbn [fst]; try discriminate.
      destruct thread_start as [[]|e2]; [|discriminate].
      intros _. exists a. now repeat split.
    + intros (a & Ha & Hs & Hth). rewrite Ha, Hs, Hth. reflexivity.
  - rewrite Hrun. split.
    + destruct target as [[a|]|e0];
        [destruct (socket_connect a) as [[]|e1] eqn:Es| |];
        cbn [snd set_connected add_events connected]; auto.
      intros _. right. now exists a.
    + intros [Hc | (a & Ha & Hs)].
      * destruct target as [[a|]|e0]; [destruct (socket_connect a)| |];
          cbn [snd set_connected add_events connected]; auto.
      * rewrite Ha, Hs. reflexivity.
  - intros a e Ha Hs Hth. rewrite Hrun, Ha, Hs, Hth. split; reflexivity.
  - intros Hip. split; [now apply Hip1|].
    rewrite Hrun, (Hgiven Hip), add_events_nil.
    destruct target as [[a|]|e]; [destruct (socket_connect a)| |];
      reflexivity.
  - intros Hip. split; [now apply Hip2|].
    rewrite Hrun, (Hsearch Hip).
    destruct target as [[a|]|e]; [destruct (socket_connect a)| |];
      reflexivity.
  - repeat split; assumption.
Qed.

(** X21. A closed client cannot be used again. After [close] the receive
    loop reads nothing, and it still reads nothing after a later
    [connect] has succeeded, because [close] clears [running] and nothing
    sets it again. A motion flagged before [close] stays flagged. *)
Theorem closed_client_reads_nothing loads inputs ip c :
  let c1 := snd (close c) in
  let c2 := snd (connect cfg local_ip socket_socket connect_ex socket_connect
                         thread_start ip c1) in
  fst (close c) = Ret tt /\
  connected c1 = false /\ running c1 = false /\
  motion_detected c1 = motion_detected c /\
  last_motion_time c1 = last_motion_time c /\
  receive_data loads inputs c1 = (Ret tt, c1) /\
  receive_data loads inputs c2 = (Ret tt, c2).
Proof.
  intros c1 c2.
  split; [reflexivity|]. split; [reflexivity|]. split; [reflexivity|].
  split; [reflexivity|]. split; [reflexivity|].
  assert (Hr2 : running c2 = false).
  { unfold c2. now destruct (connect_keeps ip c1) as (H & _). }
  unfold receive_data. split.
  - rewrite receive_loop_stopped; reflexivity.
  - rewrite receive_loop_stopped; [reflexivity|].
    unfold live. cbn [enter self]. now rewrite Hr2.
Qed.

End MoreClient.
(** ** Server and client together *)

Section Link.

Variable loads : string -> loaded.
Variable dumps : value -> string.
Variable cfg : Client.settings.

Lemma edges_rising_edges vs : forall p,
  Z.of_nat (edges (VInt p) vs) = rising_edges p vs.
Proof.
  induction vs as [|v vs IH]; intros p; [reflexivity|].
  cbn [edges rising_edges eq_int]. rewrite Nat2Z.inj_add, IH.
  destruct (Z.eqb p 0 && Z.eqb v 1); reflexivity.
Qed.

Lemma receive_step_one_frame now line d fr :
  frame_of loads (line, d) -> Client.buffer fr = EmptyString ->
  Client.receive_step loads now (Ret (line ++ nl)%string) fr =
  (Ret true, decoded now d fr).
Proof.
  intros Hf Hb.
  pose proof (@receive_step_frames loads now EmptyString [(line, d)] fr) as H.
  cbn [map fst snd frames_text] in H.
  rewrite ?append_assoc, ?append_empty_r in H.
  rewrite H; [| exact (Forall_cons _ Hf (Forall_nil _)) | reflexivity
              | assumption | destruct line; discriminate].
  cbn [decode_all fold_left].
  destruct fr as [c b p]. cbn in Hb. subst b.
  rewrite <- decoded_set_buffer. reflexivity.
Qed.

Lemma decoded_state_keeps now d v fr :
  carries_state d v ->
  live (decoded now d fr) = live fr /\
  Client.buffer (decoded now d fr) = Client.buffer fr /\
  Client.previous_state (decoded now d fr) = VInt v /\
  motions (Client.trace (Client.self (decoded now d fr))) =
    (motions (Client.trace (Client.self fr))
     + (if eq_int (Client.previous_state fr) 0 && Z.eqb v 1 then 1 else 0))%nat.
Proof.
  intros H. rewrite (decoded_state now fr H).
  destruct (eq_int (Client.previous_state fr) 0 && Z.eqb v 1).
  - unfold live, mark_motion.
    cbn [Client.self Client.set_previous_state Client.on_self Client.trace
         Client.emit Client.running Client.connected Client.buffer
         Client.previous_state Client.set_last_motion_time
         Client.set_motion_detected].
    rewrite motions_app.
    change (motions [Client.LogMotion (field d "motion_count" (VInt 0))])
      with 1%nat.
    repeat split.
  - unfold live.
    cbn [Client.self Client.set_previous_state Client.trace Client.running
         Client.connected Client.buffer Client.previous_state].
    repeat split. lia.
Qed.

Lemma receive_loop_one_frame now line d reads fr :
  frame_of loads (line, d) -> Client.buffer fr = EmptyString ->
  live fr = true ->
  Client.receive_loop loads ((now, Ret (line ++ nl)%string) :: reads) fr =
  Client.receive_loop loads reads (decoded now d fr).
Proof.
  intros Hf Hb Hl. cbn [Client.receive_loop]. unfold bind, get.
  unfold live in Hl. rewrite Hl, (receive_step_one_frame now fr Hf Hb).
  reflexivity.
Qed.

Lemma receive_loop_lines : forall lines reads vs fr,
  map snd reads = map (fun l => Ret (l ++ nl)%string) lines ->
  Forall2 (fun l v => exists d, frame_of loads (l, d) /\ carries_state d v)
          lines vs ->
  live fr = true -> Client.buffer fr = EmptyString ->
  let fr' := snd (Client.receive_loop loads reads fr) in
  motions (Client.trace (Client.self fr')) =
    (motions (Client.trace (Client.self fr))
     + edges (Client.previous_state fr) vs)%nat /\
  Client.previous_state fr' = last (map VInt vs) (Client.previous_state fr) /\
  live fr' = true /\
  Client.buffer fr' = EmptyString.
Proof.
  induction lines as [|l lines IH]; intros reads vs fr Hr Hf Hl Hb.
  - inversion Hf; subst. destruct reads; [|discriminate].
    cbn. rewrite Nat.add_0_r. repeat split; assumption.
  - inversion Hf as [|? v ? vs' (d & Hd & Hv) Hrest]; subst.
    destruct reads as [|[now r] reads]; [discriminate|].
    cbn [map snd] in Hr. inversion Hr as [[Hr1 Hr2]]. subst r.
    cbn zeta. rewrite (@receive_loop_one_frame now l d reads fr Hd Hb Hl).
    destruct (decoded_state_keeps now fr Hv) as (K1 & K2 & K3 & K4).
    destruct (IH reads vs' (decoded now d fr) Hr2 Hrest) as (H1 & H2 & H3 & H4).
    + rewrite K1. exact Hl.
    + now rewrite K2.
    + cbn zeta in H1, H2, H3, H4. rewrite H1, H2, K3, K4.
      cbn [map edges]. rewrite last_cons.
      split; [lia|]. repeat split; assumption.
Qed.

Lemma records_well_read inputs : forall s,
  Forall (well_read loads dumps) (records dumps inputs s) ->
  Forall2 (fun l v => exists d, frame_of loads (l, d) /\ carries_state d v)
          (map dumps (records dumps inputs s))
          (map Server.reading inputs).
Proof.
  induction inputs as [|i inputs IH]; intros s H; [constructor|].
  cbn [records map] in *. inversion H as [|? ? Hw Hrest]; subst.
  constructor; [|now apply IH].
  cbn [well_read Server.state_record] in Hw.
  destruct Hw as (d & Hf & Ht & Hs). exists d. split; [exact Hf|].
  split; [rewrite Ht | rewrite Hs]; reflexivity.
Qed.

(** X22. Client and server count the same edges. A client with previous
    state 0 that reads, one record per read and at any times, the records
    of a run that the server started with previous state 0, reports as
    many motions as the server's [motion_count] has grown, and ends with
    the server's last reading as its previous state; this for sensor
    readings 0 or 1 and a JSON writer and reader that agree on the type
    and state of the records. *)
Theorem client_counts_what_the_server_counts inputs reads s fr :
  Server.previous_state s = 0%Z ->
  Forall (fun i => bit (Server.reading i)) inputs ->
  Forall (well_read loads dumps) (records dumps inputs s) ->
  map snd reads =
    map (fun data => Ret (dumps data ++ Server.newline)%string)
        (records dumps inputs s) ->
  live fr = true ->
  Client.buffer fr = EmptyString ->
  Client.previous_state fr = VInt 0 ->
  let s' := snd (Server.monitor_sensor dumps inputs s) in
  let fr' := snd (Client.receive_loop loads reads fr) in
  (Z.of_nat (motions (Client.trace (Client.self fr')))
   - Z.of_nat (motions (Client.trace (Client.self fr))))%Z =
    (Server.motion_count s' - Server.motion_count s)%Z /\
  Client.previous_state fr' =
    last (map VInt (map Server.reading inputs)) (VInt 0) /\
  Server.previous_state s' = last (map Server.reading inputs) 0%Z /\
  Client.connected (Client.self fr') = true.
Proof.
  intros Hs Hbits Hw Hr Hl Hb Hp s' fr'.
  assert (Hr' : map snd reads =
                map (fun l => Ret (l ++ nl)%string)
                    (map dumps (records dumps inputs s)))
    by (rewrite map_map; exact Hr).
  destruct (@receive_loop_lines _ reads _ fr Hr' (records_well_read inputs s Hw)
              Hl Hb) as (H1 & H2 & H3 & _).
  fold fr' in H1, H2, H3.
  assert (Hm : Server.motion_count s' =
               (Server.motion_count s
                + rising_edges 0 (map Server.reading inputs))%Z).
  { unfold s'. rewrite (@monitor_sensor_motion_count dumps inputs s).
    - now rewrite Hs.
    - rewrite Hs. now left.
    - exact Hbits. }
  split.
  - rewrite H1, Hp, Hm, Nat2Z.inj_add, edges_rising_edges. lia.
  - split; [now rewrite H2, Hp|]. split.
    + unfold s'. now rewrite monitor_sensor_previous_state, Hs.
    + unfold live in H3. apply andb_true_iff in H3. tauto.
Qed.

(** X23. Edges are not queued. However many rising edges one read
    brings in, the consumer is told of one motion: [get_motion] answers
    true exactly when the debounce window has passed since that read, and
    false on the next call. *)
Theorem edges_of_one_read_make_one_motion now t t' fs vs fr :
  Forall (frame_of loads) fs ->
  Forall2 carries_state (map snd fs) vs ->
  Client.buffer fr = EmptyString ->
  fs <> [] ->
  (0 < edges (Client.previous_state fr) vs)%nat ->
  let c := Client.self
             (snd (Client.receive_step loads now
                     (Ret (frames_text (map fst fs))) fr)) in
  (fst (Client.get_motion cfg t c) = Ret true <-> window cfg < t - now) /\
  (fst (Client.get_motion cfg t c) = Ret true ->
   fst (Client.get_motion cfg t' (snd (Client.get_motion cfg t c))) = Ret false).
Proof.
  intros Hfs Hvs Hb Hne Hpos c.
  assert (Hc : Client.motion_detected c = true /\
               Client.last_motion_time c = now).
  { unfold c.
    pose proof (@receive_step_frames loads now EmptyString fs fr Hfs eq_refl Hb)
      as H.
    rewrite append_empty_r in H. rewrite H.
    - cbn [snd]. destruct (decode_all_states now fr Hvs) as (_ & _ & Hf & Ht & _).
      cbn [Client.self Client.set_buffer]. rewrite Hf, Ht.
      destruct (Nat.eqb (edges (Client.previous_state fr) vs) 0) eqn:E.
      + apply Nat.eqb_eq in E. lia.
      + now rewrite orb_true_r.
    - destruct fs as [|[l d] fs']; [congruence|]. cbn. destruct l; discriminate. }
  destruct Hc as [Hflag Htime].
  rewrite !get_motion_run, Hflag, Htime. cbn [andb].
  destruct (Client.Qlt_bool (window cfg) (t - now)) eqn:E; cbn [fst snd].
  - apply Qlt_bool_iff in E. split; [tauto|]. intros _. reflexivity.
  - split; [|discriminate]. split; [discriminate|].
    intros H. apply Qlt_bool_iff in H. congruence.
Qed.

End Link.
(** ** Runs of the further properties on concrete inputs *)

(** X2, witness: three ticks on the initial state, which has no client. *)
Lemma idle_server_only_follows_the_sensor_witness :
  let s' := snd (Server.monitor_sensor Json.dumps (map tick [0; 1; 1]%Z)
                   Server.initial) in
  Server.trace s' = [] /\ Server.pir_state s' = 1%Z.
Proof.
  destruct (@idle_server_only_follows_the_sensor Json.dumps
              (map tick [0; 1; 1]%Z) Server.initial eq_refl)
    as (H1 & _ & _ & H4 & _).
  split; [exact H1 | exact H4].
Defined.

(** X3, witness: two clients, two ticks, no write fails. *)
Lemma healthy_run_delivers_every_record_witness :
  let s := Server.set_clients
             [(1%nat, ("10.0.0.1"%string, 50001%Z));
              (2%nat, ("10.0.0.2"%string, 50002%Z))] Server.initial in
  let s' := snd (Server.monitor_sensor Json.dumps (map tick [0; 1]%Z) s) in
  Server.send_counter s' = 2%Z /\ length (Server.trace s') = 6%nat.
Proof.
  intros s s'.
  assert (Hne : Server.clients s <> []) by discriminate.
  assert (Hok : Forall (fun i => forall c, In c (Server.clients s) ->
                                           Server.down i (fst c) = false)
                       (map tick [0; 1]%Z)).
  { repeat (apply Forall_cons; [intros c _; reflexivity|]). apply Forall_nil. }
  destruct (@healthy_run_delivers_every_record Json.dumps (map tick [0; 1]%Z)
              s Hne Hok) as (_ & H2 & H3).
  split; [exact H2|]. fold s' in H3. rewrite H3. reflexivity.
Defined.

(** X6, witness: readings 0, 1, 1 at the times 1, 2, 3. *)
Lemma time_since_change_is_not_negative_witness :
  Forall elapsed_ok
         (records Json.dumps [tick_at 0 1; tick_at 1 2; tick_at 1 3]
                  Server.initial).
Proof.
  apply time_since_change_is_not_negative.
  cbn [clock_ok tick_at Server.time_at_change Server.time_at_send
       Server.last_state_change Server.initial].
  unfold Qle; cbn. repeat split; lia.
Defined.

(** X7, witness: a connection, a timeout, a connection whose thread does
    not start, a third connection; then the handler of the third
    registers before the handler of the first. *)
Lemma accept_loop_only_starts_handlers_witness :
  let c1 := (1%nat, ("10.0.0.1"%string, 50001%Z)) in
  let c2 := (2%nat, ("10.0.0.2"%string, 50002%Z)) in
  let c3 := (3%nat, ("10.0.0.3"%string, 50003%Z)) in
  let inputs := [(Ret c1, Ret tt); (Raise socket_timeout, Ret tt);
                 (Ret c2, Raise RuntimeError); (Ret c3, Ret tt)] in
  let steps := [Registers c3; Registers c1;
                Welcomes c1 "2024-01-01T00:00:00"%string (fun _ => false);
                Welcomes c3 "2024-01-01T00:00:01"%string (fun _ => true)] in
  Server.accept_loop inputs Server.initial = (Ret [c1; c3], Server.initial) /\
  Server.clients (snd (handlers_run Json.dumps steps Server.initial)) =
    [c3; c1] /\
  Permutation
    (Server.clients (snd (handlers_run Json.dumps steps Server.initial)))
    [c1; c3].
Proof.
  intros c1 c2 c3 inputs steps.
  destruct (@accept_loop_only_starts_handlers Json.dumps inputs steps
              Server.initial) as (H1 & _ & _ & H2 & _ & _ & _ & H3).
  split; [exact H1|]. split; [exact H2|].
  apply H3. apply perm_swap.
Defined.

(** X11, witness: the peer closes, then a state record arrives. *)
Lemma nothing_is_read_after_the_link_went_down_witness :
  let fr := Client.enter Client.fresh in
  Client.receive_loop Json.loads
    ([(1, Ret EmptyString)] ++ [(2, Ret (state_line 1 ++ nl)%string)]) fr =
  Client.receive_loop Json.loads [(1, Ret EmptyString)] fr.
Proof.
  intros fr.
  exact (@nothing_is_read_after_the_link_went_down Json.loads
           [(1, Ret EmptyString)] [(2, Ret (state_line 1 ++ nl)%string)] fr
           eq_refl).
Defined.

(** X12, witness: a state record cut after its first character. *)
Lemma split_delivery_is_the_same_witness :
  let fr := Client.enter Client.fresh in
  let d1 := head_of (state_line 1) in
  let d2 := (tail_of (state_line 1) ++ nl)%string in
  Client.receive_step Json.loads 10 (Ret d2)
    (snd (Client.receive_step Json.loads 10 (Ret d1) fr)) =
  Client.receive_step Json.loads 10 (Ret (d1 ++ d2)%string) fr.
Proof.
  intros fr d1 d2.
  assert (H1 : d1 <> EmptyString) by discriminate.
  assert (H2 : d2 <> EmptyString) by discriminate.
  exact (@split_delivery_is_the_same Json.loads 10 d1 d2 fr H1 H2).
Defined.

(** X13, witness: a read that brings the first character of a record. *)
Lemma buffer_holds_the_unfinished_tail_witness :
  let fr := Client.enter Client.fresh in
  let data := head_of (state_line 1) in
  exists ls,
    Forall (fun l => Client.split_newline l = None) ls /\
    (Client.buffer fr ++ data)%string =
      (frames_text ls
       ++ Client.buffer (snd (Client.receive_step Json.loads 10 (Ret data) fr)))%string /\
    Client.split_newline
      (Client.buffer (snd (Client.receive_step Json.loads 10 (Ret data) fr)))
    = None.
Proof.
  intros fr data.
  assert (H1 : data <> EmptyString) by discriminate.
  exact (@buffer_holds_the_unfinished_tail Json.loads 10 data fr H1 eq_refl).
Defined.

(** X15, witness: the number 123 as a frame, a state record behind it. *)
Lemma non_object_frame_ends_the_link_witness :
  let fr := Client.enter Client.fresh in
  let step := Client.receive_step Json.loads 10
                (Ret ("123" ++ nl ++ state_line 1 ++ nl)%string) fr in
  fst step = Ret false /\
  Client.connected (Client.self (snd step)) = false /\
  Client.motion_detected (Client.self (snd step)) = false.
Proof.
  intros fr step.
  assert (Hd : ("123" ++ nl ++ state_line 1 ++ nl)%string <> EmptyString)
    by discriminate.
  pose proof (@non_object_frame_ends_the_link Json.loads 10 "123" (VInt 123)
                (state_line 1 ++ nl)%string
                ("123" ++ nl ++ state_line 1 ++ nl)%string fr
                eq_refl eq_refl eq_refl eq_refl Hd eq_refl) as H.
  unfold step. rewrite H. repeat split.
Defined.

(** X24, witness: under a limit of nesting of 1000, an array nested 1001
    deep, then a state record with state 1. *)
Lemma frame_beyond_the_limits_ends_the_link_witness :
  let loads := Json.loads_within 1000 in
  let fr := Client.enter Client.fresh in
  let step := Client.receive_step loads 10
                (Ret (nested 1001 ++ nl ++ state_line 1 ++ nl)%string) fr in
  loads (nested 1001) = NotLoaded TooDeep /\
  loads (state_line 1) = Json.loads (state_line 1) /\
  fst step = Ret false /\
  Client.connected (Client.self (snd step)) = false /\
  Client.trace (Client.self (snd step)) =
    [Client.LogReceiveError RecursionError] /\
  Client.motion_detected (Client.self (snd step)) = false /\
  Client.previous_state (snd step) = VInt 0.
Proof.
  intros loads fr step.
  assert (Hl : loads (nested 1001) = NotLoaded TooDeep)
    by (vm_compute; reflexivity).
  assert (He : TooDeep <> NotJSON) by discriminate.
  assert (Hd : (nested 1001 ++ nl ++ state_line 1 ++ nl)%string <> EmptyString)
    by (vm_compute; discriminate).
  assert (Hn : Client.split_newline (nested 1001) = None)
    by (vm_compute; reflexivity).
  assert (Hs : Client.strip_nonempty (nested 1001) = true)
    by (vm_compute; reflexivity).
  destruct (@frame_beyond_the_limits_ends_the_link loads 10 (nested 1001)
              TooDeep (state_line 1 ++ nl)%string
              (nested 1001 ++ nl ++ state_line 1 ++ nl)%string fr
              Hn Hs Hl He Hd eq_refl) as (_ & _ & H).
  split; [exact Hl|]. split; [vm_compute; reflexivity|].
  unfold step. rewrite H. repeat split.
Defined.

(** X16, witness: a record of type ping before a state record. *)
Lemma passed_over_line_changes_nothing_witness :
  let fr := Client.enter Client.fresh in
  alike (Client.drain Json.loads 10
           (String.length (frames_text [] ++ ping_line ++ nl
                           ++ (state_line 1 ++ nl)))
           (Client.set_buffer (frames_text [] ++ ping_line ++ nl
                               ++ (state_line 1 ++ nl)) fr))
        (Client.drain Json.loads 10
           (String.length (frames_text [] ++ (state_line 1 ++ nl)))
           (Client.set_buffer (frames_text [] ++ (state_line 1 ++ nl)) fr)).
Proof.
  intros fr.
  assert (Hp : passed_over Json.loads ping_line).
  { right. right. exists (fields_of ping_line). repeat split. }
  exact (@passed_over_line_changes_nothing Json.loads 10 ping_line
           (state_line 1 ++ nl)%string [] fr (Forall_nil _) eq_refl Hp).
Defined.

(** X17, witness: state 2, then state 1, from previous state 0. *)
Lemma odd_state_hides_the_next_edge_witness :
  let fr := Client.enter Client.fresh in
  let r1 := Client.on_message 10 (VDict (fields_of odd_line)) fr in
  let r2 := Client.on_message 11 (VDict (fields_of (state_line 1))) (snd r1) in
  Client.motion_detected (Client.self (snd r2)) = false /\
  Client.previous_state (snd r2) = VInt 1.
Proof.
  intros fr r1 r2.
  assert (Hs : carries_state (fields_of (state_line 1)) 1) by (split; reflexivity).
  destruct (@odd_state_hides_the_next_edge 10 (fields_of odd_line) (VInt 2)
              (fields_of (state_line 1)) fr eq_refl eq_refl eq_refl eq_refl Hs)
    as [H1 _].
  destruct (@odd_state_hides_the_next_edge 11 (fields_of odd_line) (VInt 2)
              (fields_of (state_line 1)) fr eq_refl eq_refl eq_refl eq_refl Hs)
    as [_ H2].
  unfold r2, r1. rewrite H1. cbn [snd]. rewrite H2. split; reflexivity.
Defined.

(** X19, witness: the address 192.168.1.23. *)
Lemma network_prefix_drops_last_component_witness :
  Client.network_prefix_of "192.168.1.23" = "192.168.1."%string.
Proof.
  exact (proj1 (@network_prefix_drops_last_component "192.168.1" "23" eq_refl)).
Defined.

Lemma well_read_fields d0 :
  frame_of Json.loads
     (Json.dumps (VDict d0), fields_of (Json.dumps (VDict d0))) ->
  lookup "type" (fields_of (Json.dumps (VDict d0))) = lookup "type" d0 ->
  lookup "state" (fields_of (Json.dumps (VDict d0))) = lookup "state" d0 ->
  well_read Json.loads Json.dumps (VDict d0).
Proof.
  intros H1 H2 H3. exists (fields_of (Json.dumps (VDict d0))). auto.
Defined.

(** X22, witness: the readings 0,0,1,1,0,1 written by the server and read
    by a client, one record per read. *)
Lemma client_counts_what_the_server_counts_witness :
  let inputs := map tick [0; 0; 1; 1; 0; 1]%Z in
  let reads := map (fun data => (5, Ret (Json.dumps data ++ Server.newline)%string))
                   (records Json.dumps inputs Server.initial) in
  let fr' := snd (Client.receive_loop Json.loads reads
                    (Client.enter Client.fresh)) in
  let s' := snd (Server.monitor_sensor Json.dumps inputs Server.initial) in
  motions (Client.trace (Client.self fr')) = 2%nat /\
  Server.motion_count s' = 2%Z /\
  Client.previous_state fr' = VInt 1.
Proof.
  intros inputs reads fr' s'.
  assert (Hbits : Forall (fun i => bit (Server.reading i)) inputs).
  { repeat (apply Forall_cons; [unfold bit; cbn; auto|]). apply Forall_nil. }
  assert (Hw : Forall (well_read Json.loads Json.dumps)
                      (records Json.dumps inputs Server.initial)).
  { set (rs := records Json.dumps inputs Server.initial).
    vm_compute in rs. subst rs.
    repeat (apply Forall_cons;
            [apply well_read_fields; [repeat split | reflexivity | reflexivity]|]).
    apply Forall_nil. }
  assert (Hr : map snd reads =
               map (fun data => Ret (Json.dumps data ++ Server.newline)%string)
                   (records Json.dumps inputs Server.initial)).
  { unfold reads. rewrite map_map. reflexivity. }
  destruct (@client_counts_what_the_server_counts Json.loads Json.dumps
              inputs reads Server.initial (Client.enter Client.fresh)
              eq_refl Hbits Hw Hr eq_refl eq_refl eq_refl)
    as (H1 & H2 & _ & _).
  fold fr' in H1, H2. fold s' in H1.
  split; [|split; [reflexivity | exact H2]].
  vm_compute. reflexivity.
Defined.

(** X23, witness: states 1, 0, 1 in one read at time 10, polled at 10.3
    and again. *)
Lemma edges_of_one_read_make_one_motion_witness :
  let fs := map (fun v => parsed (state_line v)) [1; 0; 1]%Z in
  let step := Client.receive_step Json.loads 10
                (Ret (frames_text (map fst fs))) (Client.enter Client.fresh) in
  let c := Client.self (snd step) in
  motions (Client.trace c) = 2%nat /\
  fst (Client.get_motion Client.SETTINGS (103 # 10) c) = Ret true /\
  fst (Client.get_motion Client.SETTINGS (103 # 10)
         (snd (Client.get_motion Client.SETTINGS (103 # 10) c))) = Ret false.
Proof.
  intros fs step c.
  assert (Hbits : Forall bit [1; 0; 1]%Z).
  { repeat (apply Forall_cons; [unfold bit; auto|]). apply Forall_nil. }
  assert (Hfs : Forall (frame_of Json.loads) fs).
  { unfold fs. clear -Hbits. induction Hbits as [|v l Hv _ IH]; cbn [map].
    - constructor.
    - constructor; [now apply state_line_frame | exact IH]. }
  assert (Hvs : Forall2 carries_state (map snd fs) [1; 0; 1]%Z).
  { unfold fs. clear -Hbits. induction Hbits as [|v l Hv _ IH]; cbn [map].
    - constructor.
    - constructor; [now apply state_line_carries | exact IH]. }
  assert (Hne : fs <> []) by discriminate.
  assert (Hpos : (0 < edges (Client.previous_state (Client.enter Client.fresh))
                         [1; 0; 1]%Z)%nat) by (cbn; lia).
  destruct (@edges_of_one_read_make_one_motion Json.loads Client.SETTINGS
              10 (103 # 10) (103 # 10) fs [1; 0; 1]%Z
              (Client.enter Client.fresh) Hfs Hvs eq_refl Hne Hpos)
    as [Ha Hb].
  fold step in Ha, Hb. fold c in Ha, Hb.
  assert (Ht : fst (Client.get_motion Client.SETTINGS (103 # 10) c) = Ret true).
  { apply Ha. unfold Qlt. cbn. lia. }
  split; [vm_compute; reflexivity|]. split; [exact Ht | exact (Hb Ht)].
Defined.

(** X20, witness: an address is given and the socket connects, but the
    receive thread does not start: [connect] answers false and leaves
    the client marked connected. *)
Lemma connect_reports_what_it_did_witness :
  let r := Client.connect Client.SETTINGS (Ret "192.168.1.7"%string)
             (fun _ => Ret tt) (fun _ _ => Ret 1%Z) (fun _ => Ret tt)
             (Raise RuntimeError) (Some "192.168.1.20"%string) Client.init in
  fst r = Ret false /\
  Client.connected (snd r) = true /\
  Client.connected Client.init = false.
Proof.
  intros r.
  destruct (@connect_reports_what_it_did Client.SETTINGS (fun _ _ => Ret 1%Z)
              (fun _ => Ret tt) (fun _ => Ret tt) (Raise RuntimeError)
              (Ret "192.168.1.7"%string) (Some "192.168.1.20"%string)
              Client.init) as (_ & _ & _ & H & _).
  destruct (H "192.168.1.20"%string RuntimeError eq_refl eq_refl eq_refl)
    as [H1 H2].
  split; [exact H1|]. split; [exact H2 | reflexivity].
Defined.

(** No address is given and the third probe socket cannot be created:
    the search raises in front of the [try] of [connect], and [connect]
    raises with it. The two probe sockets opened before are closed. *)
Example connect_raises_with_the_search :
  let socket_socket := fun ip => if String.eqb ip "192.168.1.3"
                                 then Raise OSError else Ret tt in
  let r := Client.connect Client.SETTINGS (Ret "192.168.1.7"%string)
             socket_socket (fun _ _ => Ret 111%Z) (fun _ => Ret tt) (Ret tt)
             None Client.init in
  fst r = Raise OSError /\
  Client.connected (snd r) = false /\
  probed (Client.trace (snd r)) = ["192.168.1.1"; "192.168.1.2"]%string /\
  probe_closes (Client.trace (snd r)) = ["192.168.1.1"; "192.168.1.2"]%string.
Proof. vm_compute. repeat split. Qed.

(** X25, witness: the set-up of the third probe socket raises, the two
    hosts before it refuse; the search raises what the set-up raised. *)
Lemma search_raises_what_a_probe_socket_raises_witness :
  let socket_socket := fun ip => if String.eqb ip "192.168.1.3"
                                 then Raise OSError else Ret tt in
  let r := Client.find_raspberry_pi_sockets Client.SETTINGS
             (Ret "192.168.1.7"%string) socket_socket
             (fun _ _ => Ret 111%Z) Client.init in
  fst r = Raise OSError /\
  probed (Client.trace (snd r)) = ["192.168.1.1"; "192.168.1.2"]%string /\
  probe_closes (Client.trace (snd r)) = ["192.168.1.1"; "192.168.1.2"]%string.
Proof.
  intros socket_socket r.
  destruct (@search_raises_what_a_probe_socket_raises Client.SETTINGS
              (fun _ _ => Ret 111%Z) socket_socket
              (Ret "192.168.1.7"%string) Client.init) as (H & _ & _).
  split; [|split; vm_compute; reflexivity].
  apply (proj2 (H OSError)).
  exists "192.168.1.7"%string, ["192.168.1.1"; "192.168.1.2"]%string,
         "192.168.1.3"%string,
         (hosts_of (Client.network_prefix_of "192.168.1.7") (seq 4 251)).
  split; [reflexivity|]. split; [vm_compute; reflexivity|].
  split; [reflexivity|].
  apply Forall_cons; [split; reflexivity|].
  apply Forall_cons; [split; reflexivity|]. apply Forall_nil.
Defined.
